(** * Multi-Agent Assistant System: routing, state and resilience core

    A shallow embedding of the executable fragments of the repository
    (the Python snippets of the wiki pages and [static/js/chat.js]) and
    the properties the specification states about them.

    Conventions.  Python [datetime] values and [time.time()] readings are
    integers (a totally ordered clock, [Z]); Python [int]s are [Z];
    confidences and thresholds are rationals ([Q]); dictionaries whose
    iteration order is observable are association lists in insertion
    order, the session store is a [gmap]. *)

From Stdlib Require Import ZArith QArith Lia List String Bool.
From stdpp Require Import base gmap strings list.
Import ListNotations.

(** ** Calendar events and conflict detection
    [wiki-deploy/Database-Schema.md] (model [CalendarEvent]) and
    [wiki-deploy/Agent-Framework.md] (Calendar Agent, conflict detection). *)
Module Calendar.
Local Open Scope Z_scope.

(** The columns of [calendar_events] the conflict check reads; both time
    columns are [nullable=False]. *)
Record CalendarEvent := mkEvent {
  id : Z;
  title : string;
  start_time : Z;
  end_time : Z
}.

(** [CalendarEvent.conflicts_with]:
    [return not (self.end_time <= start_time or self.start_time >= end_time)] *)
Definition conflicts_with (self : CalendarEvent) (start_time' end_time' : Z) : bool :=
  negb ((end_time self <=? start_time') || (start_time self >=? end_time')).

(** [CalendarAgent._check_conflicts]: the query
    [filter(CalendarEvent.start_time < end_time, CalendarEvent.end_time > start_time).all()]
    over the rows [events] of the table. *)
Definition _check_conflicts (events : list CalendarEvent) (start_time' end_time' : Z)
  : list CalendarEvent :=
  List.filter (fun e => (start_time e <? end_time') && (end_time e >? start_time')) events.

(** Conflict detection between two stored events, as used for symmetry:
    [a.conflicts_with(b.start_time, b.end_time)]. *)
Definition conflict (a b : CalendarEvent) : bool :=
  conflicts_with a (start_time b) (end_time b).

Definition ev_3_8 : CalendarEvent := mkEvent 1 "standup" 3 8.

End Calendar.

(** ** Circuit breaker
    [wiki/Troubleshooting.md], class [CircuitBreaker].  Calls are taken one
    at a time (the breaker is shared "under synchronization"); a call reads
    the clock on entry when the breaker is OPEN, and once more in the
    [except] branch. *)
Module Breaker.
Local Open Scope Z_scope.

Inductive State := CLOSED | OPEN | HALF_OPEN.

Record CircuitBreaker := mkBreaker {
  failure_threshold : Z;
  timeout : Z;
  failure_count : Z;
  last_failure_time : option Z;   (* [None] until the first failure *)
  state : State
}.

(** [__init__(self, failure_threshold=5, timeout=60)] *)
Definition init (failure_threshold timeout : Z) : CircuitBreaker :=
  mkBreaker failure_threshold timeout 0 None CLOSED.

Definition default : CircuitBreaker := init 5 60.

Definition set_state (s : State) (cb : CircuitBreaker) : CircuitBreaker :=
  mkBreaker (failure_threshold cb) (timeout cb) (failure_count cb)
            (last_failure_time cb) s.

(** What awaiting [operation(...)] does: it returns a value,
    raises an [Exception] (the clock then reads [at_time] in the handler),
    or is left by a [BaseException] that [except Exception] does not catch
    (task cancellation). *)
Inductive Outcome (V E : Type) :=
| Returned (v : V)
| Raised (e : E) (at_time : Z)
| Escaped.
Arguments Returned {V E} v.
Arguments Raised {V E} e at_time.
Arguments Escaped {V E}.

(** What [call] hands to its caller. *)
Inductive Reply (V E : Type) :=
| Value (v : V)
| Exception (message : string)    (* [raise Exception(message)] *)
| TypeError                       (* [time.time() - None] *)
| Reraised (e : E)                (* the bare [raise] of the handler *)
| Propagated.                     (* the uncaught [BaseException] *)
Arguments Value {V E} v.
Arguments Exception {V E} message.
Arguments TypeError {V E}.
Arguments Reraised {V E} e.
Arguments Propagated {V E}.

(** [raise Exception("Circuit breaker is OPEN")], the specification's
    [CircuitOpenError]. *)
Definition circuit_open {V E} : Reply V E := Exception "Circuit breaker is OPEN".

(** The [if self.state == 'OPEN':] block on entry: [inl] continues to the
    [try], [inr] is the exception raised before it. *)
Definition gate {V E} (now : Z) (cb : CircuitBreaker) : CircuitBreaker + Reply V E :=
  match state cb with
  | OPEN =>
      match last_failure_time cb with
      | None => inr TypeError
      | Some last =>
          if now - last >? timeout cb
          then inl (set_state HALF_OPEN cb)
          else inr circuit_open
      end
  | _ => inl cb
  end.

(** The body of the [try] after the operation returned. *)
Definition on_success (cb : CircuitBreaker) : CircuitBreaker :=
  match state cb with
  | HALF_OPEN =>
      mkBreaker (failure_threshold cb) (timeout cb) 0 (last_failure_time cb) CLOSED
  | _ => cb
  end.

(** The [except Exception] handler. *)
Definition on_failure (at_time : Z) (cb : CircuitBreaker) : CircuitBreaker :=
  let count := failure_count cb + 1 in
  mkBreaker (failure_threshold cb) (timeout cb) count (Some at_time)
            (if count >=? failure_threshold cb then OPEN else state cb).

(** The [try ... except] statement, given what the operation did. *)
Definition attempt {V E} (o : Outcome V E) (cb : CircuitBreaker)
  : CircuitBreaker * Reply V E :=
  match o with
  | Returned v => (on_success cb, Value v)
  | Raised e at_time => (on_failure at_time cb, Reraised e)
  | Escaped => (cb, Propagated)
  end.

(** [CircuitBreaker.call]: the operation acts on the backend [B]; it is
    run only when the gate lets the call through. *)
Definition call {B V E} (now : Z) (operation : B -> Outcome V E * B)
    (cb : CircuitBreaker) (backend : B) : CircuitBreaker * B * Reply V E :=
  match gate now cb with
  | inr exn => (cb, backend, exn)
  | inl cb' =>
      let '(o, backend') := operation backend in
      let '(cb'', r) := attempt o cb' in
      (cb'', backend', r)
  end.

(** A sequence of calls, each with its entry clock reading and the outcome
    its operation would have; the breaker after the last one. *)
Definition call_with {V E} (cb : CircuitBreaker) (c : Z * Outcome V E)
  : CircuitBreaker :=
  fst (fst (call (fst c) (fun _ : unit => (snd c, tt)) cb tt)).

Definition calls {V E} (cs : list (Z * Outcome V E)) (cb : CircuitBreaker)
  : CircuitBreaker :=
  fold_left call_with cs cb.

(** A backend that counts how often it was contacted. *)
Definition counting_backend : nat -> Outcome unit unit * nat :=
  fun n => (Returned tt, S n).

(** What holds of a breaker between and during calls: outside CLOSED the
    failure count has reached the threshold and a failure time is
    recorded. *)
Definition tripped_ok (cb : CircuitBreaker) : Prop :=
  state cb <> CLOSED ->
  failure_threshold cb <= failure_count cb /\ last_failure_time cb <> None.

End Breaker.

(** ** Retry with exponential backoff
    [wiki/Troubleshooting.md], [ErrorRecoveryManager.with_retry]. *)
Module Retry.
Local Open Scope Z_scope.

(** What the caller can observe besides the result. *)
Inductive Event :=
| Invoke                 (* [await operation(...)] *)
| Sleep (seconds : Z).   (* [await asyncio.sleep(wait_time)] *)

(** What awaiting the operation does: it returns, raises an [Exception],
    or raises a [BaseException] that [except Exception] does not catch. *)
Inductive Outcome (V E X : Type) :=
| Returns (v : V)
| Raises (e : E)
| Escapes (x : X).
Arguments Returns {V E X} v.
Arguments Raises {V E X} e.
Arguments Escapes {V E X} x.

Inductive Result (V E X : Type) :=
| Return (v : V)
| ReturnNone             (* the loop ran out: the function falls off its end *)
| Raise (e : E)          (* the bare [raise] of the last attempt *)
| Propagate (x : X).     (* the uncaught [BaseException] *)
Arguments Return {V E X} v.
Arguments ReturnNone {V E X}.
Arguments Raise {V E X} e.
Arguments Propagate {V E X} x.

(** [range(n)] *)
Definition range (n : Z) : list Z := List.map Z.of_nat (seq 0 (Z.to_nat n)).

Section WithOperation.
Context {B V E X : Type}.
(** The operation acts on the backend and returns or raises. *)
Variable operation : B -> Outcome V E X * B.

(** The [for attempt in ...] loop over the remaining attempts. *)
Fixpoint loop (max_retries : Z) (attempts : list Z) (backend : B)
  : Result V E X * list Event * B :=
  match attempts with
  | [] => (ReturnNone, [], backend)
  | attempt :: rest =>
      match operation backend with
      | (Returns v, backend') => (Return v, [Invoke], backend')
      | (Escapes x, backend') => (Propagate x, [Invoke], backend')
      | (Raises e, backend') =>
          if attempt =? max_retries - 1
          then (Raise e, [Invoke], backend')
          else
            let wait_time := 2 ^ attempt in
            let '(r, trace, backend'') := loop max_retries rest backend' in
            (r, Invoke :: Sleep wait_time :: trace, backend'')
      end
  end.

(** [ErrorRecoveryManager(max_retries).with_retry(operation)] *)
Definition with_retry (max_retries : Z) (backend : B)
  : Result V E X * list Event * B :=
  loop max_retries (range max_retries) backend.
End WithOperation.

Definition invocations (trace : list Event) : nat :=
  length (List.filter (fun ev => match ev with Invoke => true | _ => false end) trace).

(** A backend that fails a given number of times before it answers. *)
Definition flaky : nat -> Outcome string string Empty_set * nat :=
  fun n => match n with
           | O => (Returns "pong"%string, O)
           | S k => (Raises "timeout"%string, k)
           end.

End Retry.

(** ** Session state and agent selection
    [wiki-deploy/Agent-Framework.md]: [WorkflowState], [BaseAgent],
    [PersonalAssistantAgent], [WorkflowEngine]. *)
Module Workflow.

(** The values of a [Dict[str, Any]]. *)
Inductive Any :=
| VNone
| VBool (b : bool)
| VInt (z : Z)
| VStr (s : string).

(** An entry of [message_history]: a dict with exactly these four keys. *)
Record Message := mkMessage {
  role : string;
  content : string;
  msg_agent_type : option string;   (* key ['agent_type'], [None] by default *)
  timestamp : Z
}.

Record WorkflowState := mkState {
  session_id : string;
  created_at : Z;
  last_activity : Z;
  message_history : list Message;
  agent_states : gmap string Any;
  context : gmap string Any
}.

(** [WorkflowState.add_message]; [t_message] and [t_activity] are the two
    readings of [datetime.utcnow()], in the order they are taken. *)
Definition add_message (role content : string) (agent_type : option string)
    (t_message t_activity : Z) (self : WorkflowState) : WorkflowState :=
  mkState (session_id self) (created_at self) t_activity
          (message_history self ++ [mkMessage role content agent_type t_message])
          (agent_states self) (context self).

(** The part of [BaseAgent] that routing reads. *)
Record BaseAgent := mkAgent {
  agent_type : string;
  can_handle : string -> gmap string Any -> bool
}.

(** [PersonalAssistantAgent.can_handle]: [return True] *)
Definition PersonalAssistantAgent : BaseAgent :=
  mkAgent "personal_assistant" (fun _task _context => true).

(** A Python [dict] with [str] keys, in insertion order. *)
Definition dict (A : Type) := list (string * A).

Fixpoint dict_get {A} (k : string) (d : dict A) : option A :=
  match d with
  | [] => None
  | (k', v) :: rest => if String.eqb k k' then Some v else dict_get k rest
  end.

(** [d[k] = v]: an existing key keeps its place, a new one goes last. *)
Fixpoint dict_set {A} (k : string) (v : A) (d : dict A) : dict A :=
  match d with
  | [] => [(k, v)]
  | (k', v') :: rest =>
      if String.eqb k k' then (k', v) :: rest else (k', v') :: dict_set k v rest
  end.

(** [WorkflowEngine.register_agent] *)
Definition register_agent (agent : BaseAgent) (agents : dict BaseAgent) : dict BaseAgent :=
  dict_set (agent_type agent) agent agents.

(** [max(iterable, key=...)] on a non-empty iterable: the first of the
    maximal items. *)
Fixpoint max_from {A} (key : A -> Q) (best : A) (items : list A) : A :=
  match items with
  | [] => best
  | x :: rest =>
      if Qle_bool (key x) (key best) then max_from key best rest
      else max_from key x rest
  end.

Inductive Exn := ValueError | KeyError.

(** [max(iterable, key=...)]; an empty iterable raises [ValueError]. *)
Definition py_max {A} (key : A -> Q) (items : list A) : A + Exn :=
  match items with
  | [] => inr ValueError
  | x :: rest => inl (max_from key x rest)
  end.

Section Selection.
(** [WorkflowEngine._calculate_agent_score] is called but defined
    nowhere in the repository: any scoring function. *)
Variable _calculate_agent_score : BaseAgent -> string -> gmap string Any -> Q.

(** One turn of the loop of [_select_best_agent]. *)
Definition turn (task : string) (context : gmap string Any)
    (agent_scores : dict Q) (item : string * BaseAgent) : dict Q :=
  let '(agent_type, agent) := item in
  if can_handle agent task context
  then dict_set agent_type (_calculate_agent_score agent task context) agent_scores
  else agent_scores.

(** The whole loop, from [agent_scores = {}]. *)
Definition agent_scores (agents : dict BaseAgent) (task : string)
    (context : gmap string Any) : dict Q :=
  fold_left (turn task context) agents [].

(** [WorkflowEngine._select_best_agent] *)
Definition _select_best_agent (agents : dict BaseAgent) (task : string)
    (context : gmap string Any) : BaseAgent + Exn :=
  match py_max snd (agent_scores agents task context) with
  | inr exn => inr exn
  | inl (best_agent_type, _) =>
      match dict_get best_agent_type agents with
      | Some agent => inl agent
      | None => inr KeyError
      end
  end.
End Selection.

(** A specialised agent that accepts nothing, for examples. *)
Definition picky_agent : BaseAgent := mkAgent "calendar_agent" (fun _ _ => false).

End Workflow.

(** ** Workflow engine: configuration, routing and [processTask]
    The configuration constants are in the repository
    ([SecurityConfig], [Config], [PERSONAL_ASSISTANT_CONFIG]); the engine
    that reads them is not, and is modelled from the specification. *)
Module Engine.
Import Workflow.

(** [SecurityConfig.MAX_AGENT_ITERATIONS =
     int(os.environ.get('MAX_AGENT_ITERATIONS', '10'))]; [environ] is the
    variable's value when it is set. *)
Definition SecurityConfig_MAX_AGENT_ITERATIONS (environ : option Z) : Z :=
  match environ with
  | Some n => n
  | None => 10%Z
  end.


Record PersonalAssistantConfig := mkPAConfig {
  delegation_threshold : Q;        (* Confidence threshold for delegation *)
  max_conversation_history : Z;
  response_timeout : Z;
  fallback_enabled : bool
}.

(** [PERSONAL_ASSISTANT_CONFIG], as the repository configures it. *)
Definition PERSONAL_ASSISTANT_CONFIG : PersonalAssistantConfig :=
  mkPAConfig (7 # 10) 50 30 true.

(** Modelled from the spec: the default confidence floor of the data model
    ("a configured confidence floor (default 0.5)"); the repository has no
    constant of this value. *)
Definition spec_default_floor : Q := 1 # 2.

(** The coordinator's key in the registry ([self.agents['personal_assistant']]). *)
Definition coordinator : string := "personal_assistant".

(** Modelled from the spec: the classifier's answer (section 4.3),
    [{needsDelegation, targetWorker, confidence, reasoning}]. *)
Record Decision := mkDecision {
  needsDelegation : bool;
  targetWorker : option string;
  confidence : Q;
  reasoning : string
}.

(** Modelled from the spec: the validation of section 4.3; the engine's
    classifier is not in the repository.  A response is well formed when it
    names a registered target and its confidence lies in [0,1]. *)
Definition well_formed (agents : dict BaseAgent) (d : Decision) : bool :=
  match targetWorker d with
  | Some w =>
      Qle_bool 0 (confidence d) && Qle_bool (confidence d) 1
      && match dict_get w agents with Some _ => true | None => false end
  | None => negb (needsDelegation d)
  end.

(** Modelled from the spec: a malformed response is treated as
    [needsDelegation: false]. *)
Definition validate (agents : dict BaseAgent) (d : Decision) : Decision :=
  if well_formed agents d then d
  else mkDecision false None (confidence d) (reasoning d).

(** Modelled from the spec: a worker is healthy when its circuit is not
    OPEN (section 4.1, step 5). *)
Definition healthy (breakers : string -> Breaker.CircuitBreaker) (w : string) : bool :=
  match Breaker.state (breakers w) with
  | Breaker.OPEN => false
  | _ => true
  end.

(** Modelled from the spec: steps 5 and 6 of [processTask] (section 4.1);
    the engine's dispatch is not in the repository.  The proposed worker is
    used when its confidence is at least the floor, it is registered and
    healthy, and it accepts the task; in every other case the coordinator
    handles the task. *)
Definition route (floor : Q) (agents : dict BaseAgent)
    (breakers : string -> Breaker.CircuitBreaker)
    (task : string) (context : gmap string Any) (d : Decision) : string :=
  let d := validate agents d in
  match needsDelegation d, targetWorker d with
  | true, Some w =>
      match dict_get w agents with
      | Some agent =>
          if Qle_bool floor (confidence d) && healthy breakers w
             && can_handle agent task context
          then w
          else coordinator
      | None => coordinator
      end
  | _, _ => coordinator
  end.

(** Modelled from the spec: the session of section 3, the repository's
    [WorkflowState] together with the [iterationCount] the spec adds. *)
Record Session := mkSession {
  wstate : WorkflowState;
  iterationCount : Z
}.

(** Modelled from the spec: the error taxonomy of section 7. *)
Inductive ErrorKind :=
| InvalidInputError
| IterationLimitExceeded
| CircuitOpenError
| BackendTimeout
| BackendUnavailable
| InternalError.

(** Modelled from the spec: the structured result of [processTask]. *)
Inductive Result :=
| Success (responseText workerId : string)
| Failure (error : ErrorKind).

(** Modelled from the spec: what steps 7 and 8 make of a worker's run
    (under its circuit breaker and the retry policy). *)
Inductive Outcome :=
| Done (responseText : string)
| Failed (error : ErrorKind).

Definition is_success (r : Result) : bool :=
  match r with
  | Success _ _ => true
  | Failure _ => false
  end.

Definition new_session (sessionId : string) (now : Z) : Session :=
  mkSession (mkState sessionId now now [] ∅ ∅) 0.


(** Modelled from the spec: step 1 of [processTask], [loadSession] with
    create-on-miss. *)
Definition load_or_create (now : Z) (store : gmap string Session)
    (sessionId : string) : Session :=
  match store !! sessionId with
  | Some s => s
  | None => new_session sessionId now
  end.

(** Modelled from the spec: steps 2 and 3 of [processTask] on the loaded
    session: the input is appended as a user message and [iterationCount]
    is incremented. *)
Definition begin_task (now : Z) (rawInput : string) (s : Session) : Session :=
  mkSession (add_message "user" rawInput None now now (wstate s))
            (iterationCount s + 1).

Section ProcessTask.
Variable max_iterations : Z.
Variable floor : Q.
Variable agents : dict BaseAgent.
Variable breakers : string -> Breaker.CircuitBreaker.
(** The inference backend's routing answer. *)
Variable classify : string -> gmap string Any -> Decision.
(** The chosen worker's run on the task in the session. *)
Variable execute : string -> string -> Session -> Outcome.

(** Modelled from the spec: step 4, the classifier's answer for the task
    in the session's global context. *)
Definition decision (now : Z) (store : gmap string Session)
    (sessionId rawInput : string) : Decision :=
  classify rawInput
           (context (wstate (begin_task now rawInput (load_or_create now store sessionId)))).

(** Modelled from the spec: steps 5 and 6, the worker the task goes to. *)
Definition chosen_worker (now : Z) (store : gmap string Session)
    (sessionId rawInput : string) : string :=
  route floor agents breakers rawInput
        (context (wstate (begin_task now rawInput (load_or_create now store sessionId))))
        (decision now store sessionId rawInput).

(** Modelled from the spec: [processTask(sessionId, rawInput)], section
    4.1, steps 1 to 8; the engine is not in the repository.  The result
    comes with the new session store and the workers that were invoked.
    An empty input is refused before the session is loaded.  The session
    is loaded from the store ([loadSession]), worked on, and saved
    ([saveSession]) where step 7 saves it, on success; a call that is
    rejected in step 3 or fails in step 8 returns its error and saves
    nothing. *)
Definition processTask (now : Z) (store : gmap string Session)
    (sessionId rawInput : string)
  : gmap string Session * Result * list string :=
  if String.eqb rawInput "" then (store, Failure InvalidInputError, [])
  else
    (* 1 to 3. load or create, append the input, increment *)
    let s := begin_task now rawInput (load_or_create now store sessionId) in
    (* 3. check the limit *)
    if (max_iterations <? iterationCount s)%Z
    then (store, Failure IterationLimitExceeded, [])
    else
      (* 4 to 6. classify and choose the worker *)
      let worker := chosen_worker now store sessionId rawInput in
      (* 7 and 8. run it *)
      match execute worker rawInput s with
      | Done text =>
          let s' := mkSession
                      (add_message "assistant" text (Some worker) now now (wstate s))
                      (iterationCount s) in
          (<[sessionId := s']> store, Success text worker, [worker])
      | Failed error =>
          (store, Failure error, [worker])
      end.

(** Tasks sent one after the other, each at its time to its session: the
    final store and the results, in order, each with its session. *)
Fixpoint processTasks (tasks : list (Z * string * string))
    (store : gmap string Session) : gmap string Session * list (string * Result) :=
  match tasks with
  | [] => (store, [])
  | (now, sessionId, rawInput) :: rest =>
      let '(store', r, _) := processTask now store sessionId rawInput in
      let '(store'', rs) := processTasks rest store' in
      (store'', (sessionId, r) :: rs)
  end.
End ProcessTask.


(** A decision the examples use: the calendar worker, proposed with the
    given confidence. *)
Definition to_calendar (confidence : Q) : Decision :=
  mkDecision true (Some "calendar_agent"%string) confidence "scheduling request".

Definition willing_calendar : BaseAgent := mkAgent "calendar_agent" (fun _ _ => true).

Definition two_agents : dict BaseAgent :=
  register_agent willing_calendar (register_agent PersonalAssistantAgent []).

Definition all_closed : string -> Breaker.CircuitBreaker := fun _ => Breaker.default.

(** An inference backend that always proposes the calendar worker, one
    that proposes it with little confidence, a worker run that always
    succeeds, one that times out on the input "later", and a session that
    has used up its ten tasks. *)
Definition always_calendar : string -> gmap string Any -> Decision :=
  fun _ _ => to_calendar (9 # 10).


Definition always_done : string -> string -> Session -> Outcome :=
  fun _ _ _ => Done "ok".



End Engine.

(** ** Web client
    [static/js/chat.js], class [ChatInterface], on the page of
    [templates/chat.html].  JavaScript strings are
    sequences of UTF-16 code units.  The code runs on one thread: a call of
    [sendMessage] runs without interruption up to its [await], and resumes
    when the request it issued is settled. *)
Module Chat.
Local Open Scope N_scope.

Definition jsstring := list N.

(** The code units [String.prototype.trim] strips: ECMAScript's WhiteSpace
    and LineTerminator. *)
Definition white_space : list N :=
  [9; 10; 11; 12; 13; 32; 160; 5760;
   8192; 8193; 8194; 8195; 8196; 8197; 8198; 8199; 8200; 8201; 8202;
   8232; 8233; 8239; 8287; 12288; 65279].

Definition is_white_space (c : N) : bool := existsb (N.eqb c) white_space.

Fixpoint trim_start (s : jsstring) : jsstring :=
  match s with
  | [] => []
  | c :: rest => if is_white_space c then trim_start rest else s
  end.

(** [s.trim()] *)
Definition trim (s : jsstring) : jsstring :=
  rev (trim_start (rev (trim_start s))).

(** An element of [chatMessages] or of [messageHistory].  The first three
    are what [addMessage] and [addErrorMessage] build; the last is the
    bubble that [templates/chat.html] ships inside [#chatMessages]. *)
Inductive Bubble :=
| UserMessage (content : jsstring)
| AssistantMessage (content : jsstring)
| ErrorMessage (error : jsstring)
| WelcomeMessage.

Record ChatInterface := mkChat {
  sessionId : jsstring;
  isProcessing : bool;
  messageHistory : list Bubble;
  chatMessages : list Bubble;           (* children of the DOM node *)
  messageInput_value : jsstring;
  messageInput_disabled : bool;
  sendButton_disabled : bool;
  typingIndicator_shown : bool
}.

(** The constructor: [isProcessing = false], [messageHistory = []], and the
    elements as the template renders them: [#chatMessages] holds the static
    welcome bubble, the input is empty, neither control is disabled, and
    the typing indicator has [display: none]. *)
Definition new_ChatInterface (sessionId : jsstring) : ChatInterface :=
  mkChat sessionId false [] [WelcomeMessage] [] false false false.

(** [addMessage(role, content, options)]: a bubble in the DOM and an entry
    in the history. *)
Definition addMessage (b : Bubble) (c : ChatInterface) : ChatInterface :=
  mkChat (sessionId c) (isProcessing c) (messageHistory c ++ [b])
         (chatMessages c ++ [b]) (messageInput_value c)
         (messageInput_disabled c) (sendButton_disabled c) (typingIndicator_shown c).

(** [addErrorMessage(error)]: a bubble in the DOM only. *)
Definition addErrorMessage (error : jsstring) (c : ChatInterface) : ChatInterface :=
  mkChat (sessionId c) (isProcessing c) (messageHistory c)
         (chatMessages c ++ [ErrorMessage error]) (messageInput_value c)
         (messageInput_disabled c) (sendButton_disabled c) (typingIndicator_shown c).

(** [setProcessing(isProcessing)] *)
Definition setProcessing (p : bool) (c : ChatInterface) : ChatInterface :=
  mkChat (sessionId c) p (messageHistory c) (chatMessages c)
         (messageInput_value c) p p p.

Definition set_input (v : jsstring) (c : ChatInterface) : ChatInterface :=
  mkChat (sessionId c) (isProcessing c) (messageHistory c) (chatMessages c)
         v (messageInput_disabled c) (sendButton_disabled c) (typingIndicator_shown c).

Definition set_sessionId (sid : jsstring) (c : ChatInterface) : ChatInterface :=
  mkChat sid (isProcessing c) (messageHistory c) (chatMessages c)
         (messageInput_value c) (messageInput_disabled c) (sendButton_disabled c)
         (typingIndicator_shown c).

(** [clearChat()] *)
Definition clearChat (c : ChatInterface) : ChatInterface :=
  mkChat (sessionId c) (isProcessing c) [] []
         (messageInput_value c) (messageInput_disabled c) (sendButton_disabled c)
         (typingIndicator_shown c).

(** A POST to [/api/chat] that has been issued and is not yet settled. *)
Record Request := mkRequest {
  req_message : jsstring;
  req_session_id : jsstring
}.

(** How [await this.callChatAPI(message)] ends. *)
Inductive ApiResult :=
| Succeeded (message : jsstring) (session_id : option jsstring)   (* [response.success] truthy *)
| Refused (error : option jsstring)                              (* [response.success] falsy *)
| Threw.               (* [fetch] rejected, status not ok, or the body is not JSON *)

(** The page: the object and the requests it has in flight. *)
Record Page := mkPage {
  chat : ChatInterface;
  in_flight : list Request
}.

(** The code units of an ASCII literal. *)
Definition js (s : string) : jsstring :=
  List.map (fun a => N.of_nat (Ascii.nat_of_ascii a)) (list_ascii_of_string s).

Definition unknown_error : jsstring := js "An unknown error occurred".
Definition failed_to_send : jsstring :=
  js "Failed to send message. Please check your connection and try again.".

Definition jsstring_eqb (a b : jsstring) : bool :=
  bool_decide (a = b).

(** [sendMessage], from its start to [await this.callChatAPI(message)];
    [callChatAPI] calls [fetch] at once. *)
Definition sendMessage_begin (p : Page) : Page :=
  let c := chat p in
  let message := trim (messageInput_value c) in
  match message, isProcessing c with
  | [], _ => p                                        (* [!message]: return *)
  | _ :: _, true => p                                 (* [this.isProcessing]: return *)
  | _ :: _, false =>
      let c1 := addMessage (UserMessage message) c in
      let c2 := set_input [] c1 in
      let c3 := setProcessing true c2 in
      mkPage c3 (in_flight p ++ [mkRequest message (sessionId c3)])
  end.

(** [sendMessage], from the settled [await] to its end: the [try] body or
    the [catch] handler, then [finally]. *)
Definition sendMessage_resume (r : ApiResult) (c : ChatInterface) : ChatInterface :=
  let c1 :=
    match r with
    | Succeeded message session_id =>
        let c' := addMessage (AssistantMessage message) c in
        match session_id with
        | Some (u :: sid) =>
            if jsstring_eqb (u :: sid) (sessionId c') then c'
            else set_sessionId (u :: sid) c'
        | _ => c'
        end
    | Refused (Some (u :: error)) => addErrorMessage (u :: error) c
    | Refused _ => addErrorMessage unknown_error c
    | Threw => addErrorMessage failed_to_send c
    end in
  setProcessing false c1.

(** What can happen to the page. *)
Inductive Action :=
| Type_ (v : jsstring)               (* the input's value changes *)
| Send                               (* the form is submitted, or Ctrl+Enter *)
| Settle (i : nat) (r : ApiResult)   (* the [i]-th request in flight is answered *)
| Clear.                             (* Ctrl+L, confirmed *)

Definition remove_nth {A} (i : nat) (l : list A) : list A :=
  firstn i l ++ skipn (S i) l.

(** One action; [None] when it cannot happen (no such request). *)
Definition step (a : Action) (p : Page) : option Page :=
  match a with
  | Type_ v => Some (mkPage (set_input v (chat p)) (in_flight p))
  | Send => Some (sendMessage_begin p)
  | Settle i r =>
      match nth_error (in_flight p) i with
      | Some _ => Some (mkPage (sendMessage_resume r (chat p)) (remove_nth i (in_flight p)))
      | None => None
      end
  | Clear => Some (mkPage (clearChat (chat p)) (in_flight p))
  end.

Fixpoint run (actions : list Action) (p : Page) : option Page :=
  match actions with
  | [] => Some p
  | a :: rest =>
      match step a p with
      | Some p' => run rest p'
      | None => None
      end
  end.

Definition initial_page (sessionId : jsstring) : Page :=
  mkPage (new_ChatInterface sessionId) [].

(** The pages a session can be in. *)
Inductive reachable (sessionId : jsstring) : Page -> Prop :=
| reach_initial : reachable sessionId (initial_page sessionId)
| reach_step a p p' :
    reachable sessionId p -> step a p = Some p' -> reachable sessionId p'.

(** The flag and the requests in flight agree. *)
Definition in_step (p : Page) : Prop :=
  length (in_flight p) = if isProcessing (chat p) then 1%nat else 0%nat.

Definition hi : jsstring := js "hi".

End Chat.

(** ** Persistence
    [wiki-deploy/Database-Schema.md]: the tables, the agent-state
    functions, [SessionManager], [CalendarManager] and
    [DataRetentionManager].  A table is the list of its rows in insertion
    order; a nullable column is an [option]; [first()] is the first
    matching row; timestamps count microseconds. *)
Module Database.
Local Open Scope Z_scope.

Record ChatSession := mkChatSession {
  cs_id : Z;
  cs_session_id : string;             (* unique, not null *)
  cs_created_at : option Z
}.

Record ChatMessage := mkChatMessage {
  cm_id : Z;
  cm_session_id : string;             (* foreign key to [chat_sessions.session_id] *)
  cm_role : string;
  cm_content : string;
  cm_agent_type : option string;
  cm_timestamp : option Z
}.

Record AgentState := mkAgentState {
  as_id : Z;
  as_session_id : string;
  as_agent_type : string;
  as_state_data : option string;      (* JSON serialized state *)
  as_updated_at : option Z
}.

(** The database: the three tables and their [SERIAL] counters. *)
Record DB := mkDB {
  chat_sessions : list ChatSession;
  chat_messages : list ChatMessage;
  agent_states : list AgentState;
  next_session_id : Z;
  next_agent_state_id : Z
}.

Definition empty_db : DB := mkDB [] [] [] 1 1.

(** [timedelta(days=n)] *)
Definition timedelta_days (n : Z) : Z := n * 86400000000.

(** [filter_by(session_id=..., agent_type=...)] on [agent_states] *)
Definition state_matches (session_id agent_type : string) (row : AgentState) : bool :=
  String.eqb (as_session_id row) session_id && String.eqb (as_agent_type row) agent_type.

(** [filter_by(session_id=...)] on [chat_sessions] *)
Definition session_matches (session_id : string) (row : ChatSession) : bool :=
  String.eqb (cs_session_id row) session_id.

(** The assignment to the attributes of the first matching row. *)
Fixpoint update_first {A} (p : A -> bool) (f : A -> A) (rows : list A) : list A :=
  match rows with
  | [] => []
  | row :: rest => if p row then f row :: rest else row :: update_first p f rest
  end.

Section AgentStates.
(** The state dictionaries and their JSON text: [json.dumps], and
    [json.loads], which raises on text that is not JSON ([None]). *)
Context {D : Type}.
Variable empty_dict : D.
Variable json_dumps : D -> string.
Variable json_loads : string -> option D.

(** [save_agent_state(session_id, agent_type, state_data)] at time [now]. *)
Definition save_agent_state (now : Z) (session_id agent_type : string) (state_data : D)
    (db : DB) : DB :=
  match List.find (state_matches session_id agent_type) (agent_states db) with
  | Some _ =>
      mkDB (chat_sessions db) (chat_messages db)
           (update_first (state_matches session_id agent_type)
              (fun row => mkAgentState (as_id row) (as_session_id row) (as_agent_type row)
                                       (Some (json_dumps state_data)) (Some now))
              (agent_states db))
           (next_session_id db) (next_agent_state_id db)
  | None =>
      mkDB (chat_sessions db) (chat_messages db)
           (agent_states db ++
            [mkAgentState (next_agent_state_id db) session_id agent_type
                          (Some (json_dumps state_data)) (Some now)])
           (next_session_id db) (next_agent_state_id db + 1)
  end.

(** [load_agent_state(session_id, agent_type)]; [None] is the exception of
    [json.loads]. *)
Definition load_agent_state (session_id agent_type : string) (db : DB) : option D :=
  match List.find (state_matches session_id agent_type) (agent_states db) with
  | Some row =>
      match as_state_data row with
      | Some text => if String.eqb text "" then Some empty_dict else json_loads text
      | None => Some empty_dict
      end
  | None => Some empty_dict
  end.
End AgentStates.

Inductive IntegrityError := UniqueViolation.

(** [SessionManager.create_session]: the insert fails at [commit] when
    the [session_id] is taken. *)
Definition create_session (now : Z) (session_id : string) (db : DB)
  : (ChatSession * DB) + IntegrityError :=
  if existsb (session_matches session_id) (chat_sessions db)
  then inr UniqueViolation
  else
    let session := mkChatSession (next_session_id db) session_id (Some now) in
    inl (session,
         mkDB (chat_sessions db ++ [session]) (chat_messages db) (agent_states db)
              (next_session_id db + 1) (next_agent_state_id db)).

(** [SessionManager.get_or_create_session] *)
Definition get_or_create_session (now : Z) (session_id : string) (db : DB)
  : (ChatSession * DB) + IntegrityError :=
  match List.find (session_matches session_id) (chat_sessions db) with
  | Some session => inl (session, db)
  | None => create_session now session_id db
  end.

(** [ChatSession.created_at < cutoff_date]; a NULL is not less. *)
Definition older_than (cutoff_date : Z) (session : ChatSession) : bool :=
  match cs_created_at session with
  | Some t => t <? cutoff_date
  | None => false
  end.

(** [db.session.delete(session)] with the cascade to its messages. *)
Definition delete_session (db : DB) (session : ChatSession) : DB :=
  mkDB (List.filter (fun s => negb (cs_id s =? cs_id session)) (chat_sessions db))
       (List.filter (fun m => negb (String.eqb (cm_session_id m) (cs_session_id session)))
                    (chat_messages db))
       (agent_states db) (next_session_id db) (next_agent_state_id db).

(** [DataRetentionManager.cleanup_old_sessions(days_old)] at time [now]:
    the number of sessions removed and the database after. *)
Definition cleanup_old_sessions (now : Z) (days_old : Z) (db : DB) : Z * DB :=
  let cutoff_date := now - timedelta_days days_old in
  let old_sessions := List.filter (older_than cutoff_date) (chat_sessions db) in
  (Z.of_nat (length old_sessions), fold_left delete_session old_sessions db).

(** The outer join of [cleanup_orphaned_agent_states]: no session has the
    state's [session_id]. *)
Definition orphaned (db : DB) (state : AgentState) : bool :=
  negb (existsb (session_matches (as_session_id state)) (chat_sessions db)).

Definition delete_agent_state (db : DB) (state : AgentState) : DB :=
  mkDB (chat_sessions db) (chat_messages db)
       (List.filter (fun s => negb (as_id s =? as_id state)) (agent_states db))
       (next_session_id db) (next_agent_state_id db).

(** [DataRetentionManager.cleanup_orphaned_agent_states()] *)
Definition cleanup_orphaned_agent_states (db : DB) : Z * DB :=
  let orphaned_states := List.filter (orphaned db) (agent_states db) in
  (Z.of_nat (length orphaned_states), fold_left delete_agent_state orphaned_states db).

(** The constraints of the schema: primary keys and the [UNIQUE] columns. *)
Definition session_keys (db : DB) : list string := List.map cs_session_id (chat_sessions db).
Definition state_keys (db : DB) : list (string * string) :=
  List.map (fun s => (as_session_id s, as_agent_type s)) (agent_states db).

Record well_formed (db : DB) : Prop := mkWF {
  wf_session_ids : List.NoDup (List.map cs_id (chat_sessions db));
  wf_session_keys : List.NoDup (session_keys db);
  wf_state_ids : List.NoDup (List.map as_id (agent_states db));
  wf_state_keys : List.NoDup (state_keys db);
  wf_session_seq : Forall (fun s => cs_id s < next_session_id db) (chat_sessions db);
  wf_state_seq : Forall (fun s => as_id s < next_agent_state_id db) (agent_states db)
}.

(** A toy JSON for the examples: two dictionaries. *)
Definition toy_dumps (d : bool) : string := if d then "{x}" else "{}".
Definition toy_loads (text : string) : option bool :=
  if String.eqb text "{x}" then Some true
  else if String.eqb text "{}" then Some false else None.

(** A database for the examples: a session created at time 0 and one
    created 40 days later, a message in each, and agent states for the
    first session and for a session that does not exist. *)
Definition sample_db : DB :=
  mkDB [mkChatSession 1 "old" (Some 0); mkChatSession 2 "new" (Some (timedelta_days 40))]
       [mkChatMessage 1 "old" "user" "hello" None (Some 1);
        mkChatMessage 2 "new" "user" "hello again" None (Some (timedelta_days 40 + 1))]
       [mkAgentState 1 "old" "calendar_agent" (Some "{}") (Some 2);
        mkAgentState 2 "gone" "search_agent" (Some "{}") (Some 3)]
       3 3.

(** [CalendarManager.find_conflicts], over the rows of [calendar_events]. *)
Definition find_conflicts (events : list Calendar.CalendarEvent) (start_time end_time : Z)
  : list Calendar.CalendarEvent :=
  List.filter (fun e => (Calendar.start_time e <? end_time)
                        && (Calendar.end_time e >? start_time)) events.

End Database.

(** ** Agent metrics and capabilities
    [wiki-deploy/Agent-Framework.md]: [AgentMetrics],
    [WorkflowEngine.get_agent_capabilities]. *)
Module Metrics.
Local Open Scope Z_scope.

(** [self.metrics]: four [defaultdict]s keyed by agent type. *)
Record AgentMetrics := mkMetrics {
  response_times : gmap string (list Q);
  success_rates : gmap string Z;
  task_counts : gmap string Z;
  error_counts : gmap string Z
}.

(** [AgentMetrics()] *)
Definition new_metrics : AgentMetrics := mkMetrics ∅ ∅ ∅ ∅.

(** Reading a [defaultdict(int)] or [defaultdict(list)]. *)
Definition count_of (m : gmap string Z) (k : string) : Z := default 0 (m !! k).
Definition times_of (m : gmap string (list Q)) (k : string) : list Q := default [] (m !! k).

(** [record_agent_performance(agent_type, response_time, success)] *)
Definition record_agent_performance (agent_type : string) (response_time : Q)
    (success : bool) (self : AgentMetrics) : AgentMetrics :=
  let times := <[agent_type := times_of (response_times self) agent_type ++ [response_time]]>
                 (response_times self) in
  let tasks := <[agent_type := count_of (task_counts self) agent_type + 1]>
                 (task_counts self) in
  if success
  then mkMetrics times
                 (<[agent_type := count_of (success_rates self) agent_type + 1]>
                    (success_rates self))
                 tasks (error_counts self)
  else mkMetrics times (success_rates self) tasks
                 (<[agent_type := count_of (error_counts self) agent_type + 1]>
                    (error_counts self)).

(** A sequence of recordings, oldest first. *)
Definition record_all (records : list (string * Q * bool)) (self : AgentMetrics)
  : AgentMetrics :=
  fold_left (fun m '(agent_type, response_time, success) =>
               record_agent_performance agent_type response_time success m)
            records self.

(** The recordings made for one agent type. *)
Definition for_agent (agent_type : string) (records : list (string * Q * bool))
  : list (string * Q * bool) :=
  List.filter (fun r => String.eqb (fst (fst r)) agent_type) records.

(** [WorkflowEngine.get_agent_capabilities]: the dict comprehension over
    [self.agents.items()]; [get_capabilities] is the agents' method. *)
Definition get_agent_capabilities (get_capabilities : Workflow.BaseAgent -> list string)
    (agents : Workflow.dict Workflow.BaseAgent) : Workflow.dict (list string) :=
  fold_left (fun d '(agent_type, agent) =>
               Workflow.dict_set agent_type (get_capabilities agent) d)
            agents [].

End Metrics.

(** ** Health checks
    [wiki/Troubleshooting.md], class [HealthMonitor]. *)
Module Health.

Inductive Status := healthy | unhealthy.

(** What [await check_function()] does: it returns details, raises an
    [Exception] with a message, or raises past the handler. *)
Inductive CheckOutcome :=
| Details (details : string)
| Error (message : string)
| Abandon.

(** An entry of [results]. *)
Inductive CheckResult :=
| Healthy (details : string)       (* [{'status': 'healthy', 'details': result}] *)
| Unhealthy (error : string).      (* [{'status': 'unhealthy', 'error': str(e)}] *)

Section Checks.
(** The checks act on the system they probe. *)
Context {B : Type}.

(** [self.checks], as [add_check] fills it. *)
Definition add_check (name : string) (check_function : B -> CheckOutcome * B)
    (checks : list (string * (B -> CheckOutcome * B)))
  : list (string * (B -> CheckOutcome * B)) :=
  checks ++ [(name, check_function)].

(** The loop of [run_health_checks], from given [results] and
    [overall_status]; [None] when a check raised past the handler. *)
Fixpoint run_checks (checks : list (string * (B -> CheckOutcome * B)))
    (results : Workflow.dict CheckResult) (overall_status : Status) (system : B)
  : option (Status * Workflow.dict CheckResult) * B :=
  match checks with
  | [] => (Some (overall_status, results), system)
  | (name, check_function) :: rest =>
      match check_function system with
      | (Details result, system') =>
          run_checks rest (Workflow.dict_set name (Healthy result) results)
                     overall_status system'
      | (Error e, system') =>
          run_checks rest (Workflow.dict_set name (Unhealthy e) results)
                     unhealthy system'
      | (Abandon, system') => (None, system')
      end
  end.

(** [HealthMonitor.run_health_checks] *)
Definition run_health_checks (checks : list (string * (B -> CheckOutcome * B)))
    (system : B) : option (Status * Workflow.dict CheckResult) * B :=
  run_checks checks [] healthy system.

(** What each check did, in order, up to the first that raised past the
    handler. *)
Fixpoint outcomes (checks : list (string * (B -> CheckOutcome * B))) (system : B)
  : list (string * CheckOutcome) :=
  match checks with
  | [] => []
  | (name, check_function) :: rest =>
      match check_function system with
      | (Abandon, _) => [(name, Abandon)]
      | (o, system') => (name, o) :: outcomes rest system'
      end
  end.
End Checks.

Definition is_error (o : CheckOutcome) : bool :=
  match o with
  | Error _ => true
  | _ => false
  end.

(** The usage of the source: a database check that passes and a model
    check that fails. *)
Definition sample_checks : list (string * (unit -> CheckOutcome * unit)) :=
  add_check "bedrock" (fun _ => (Error "timed out", tt))
    (add_check "database" (fun _ => (Details "ok", tt)) []).

End Health.

(** ** Guardrails
    [unnamed/part_006] (guardrails and security framework): [RateLimiter],
    [ToolsService._validate_python_code]; [docs/Security-Guidelines.md]:
    [IntrusionDetectionSystem], [SecureSessionManager],
    [PerplexitySecurityManager], [BedrockSecurityManager].  A Python
    [str] whose characters matter is the list of its code points. *)
Module Guardrails.
Local Open Scope Z_scope.

Definition pystr := list N.

(** The code points of an ASCII literal. *)
Definition py (s : string) : pystr :=
  List.map (fun a => N.of_nat (Ascii.nat_of_ascii a)) (list_ascii_of_string s).

Definition pystr_eqb (a b : pystr) : bool := bool_decide (a = b).

(** [a.startswith(b)] *)
Fixpoint starts_with (b a : pystr) : bool :=
  match b, a with
  | [], _ => true
  | _ :: _, [] => false
  | x :: b', y :: a' => N.eqb x y && starts_with b' a'
  end.

(** [b in a] for strings: [b] occurs somewhere in [a]. *)
Fixpoint contains (b a : pystr) : bool :=
  starts_with b a ||
  match a with
  | [] => false
  | _ :: a' => contains b a'
  end.

(** *** Rate limiting *)

Record RateLimiter := mkRateLimiter {
  request_counts : gmap string (list Z);
  max_requests_per_minute : Z;
  max_requests_per_hour : Z
}.

(** [RateLimiter()] *)
Definition new_RateLimiter : RateLimiter := mkRateLimiter ∅ 60 1000.

Definition within (current_time seconds : Z) (req_time : Z) : bool :=
  current_time - req_time <? seconds.

Section RateLimit.
(** [self._cleanup_old_entries(current_time)] is called and defined
    nowhere in the repository: any update of [request_counts]. *)
Variable _cleanup_old_entries : Z -> gmap string (list Z) -> gmap string (list Z).

(** [RateLimiter.check_rate_limit(session_id)] with the clock at
    [current_time]. *)
Definition check_rate_limit (current_time : Z) (session_id : string) (self : RateLimiter)
  : bool * RateLimiter :=
  let cleaned := _cleanup_old_entries current_time (request_counts self) in
  let counts := match cleaned !! session_id with
                | Some _ => cleaned
                | None => <[session_id := []]> cleaned
                end in
  let log := default [] (counts !! session_id) in
  let self' := mkRateLimiter counts (max_requests_per_minute self)
                             (max_requests_per_hour self) in
  let recent_requests := List.filter (within current_time 3600) log in
  if Z.of_nat (length recent_requests) >=? max_requests_per_hour self
  then (false, self')
  else
    let minute_requests := List.filter (within current_time 60) recent_requests in
    if Z.of_nat (length minute_requests) >=? max_requests_per_minute self
    then (false, self')
    else (true, mkRateLimiter (<[session_id := log ++ [current_time]]> counts)
                              (max_requests_per_minute self)
                              (max_requests_per_hour self)).

(** Requests one after the other: the limiter after the last one. *)
Definition check_all (requests : list (Z * string)) (self : RateLimiter) : RateLimiter :=
  fold_left (fun l '(current_time, session_id) =>
               snd (check_rate_limit current_time session_id l))
            requests self.
End RateLimit.

(** Counting the requests of a log inside a window. *)
Definition in_window (current_time seconds : Z) (log : list Z) : Z :=
  Z.of_nat (length (List.filter (within current_time seconds) log)).

Definition log_of (self : RateLimiter) (session_id : string) : list Z :=
  default [] (request_counts self !! session_id).

(** The limits hold at time [now] for every session. *)
Definition within_limits (now : Z) (self : RateLimiter) : Prop :=
  max_requests_per_minute self = 60 /\ max_requests_per_hour self = 1000 /\
  forall session_id,
    in_window now 60 (log_of self session_id) <= 60 /\
    in_window now 3600 (log_of self session_id) <= 1000.

(** The clock readings of a sequence of requests never go back, starting
    at [t0]. *)
Fixpoint clock_ok (t0 : Z) (requests : list (Z * string)) : Prop :=
  match requests with
  | [] => True
  | (t, _) :: rest => t0 <= t /\ clock_ok t rest
  end.

Definition last_time (t0 : Z) (requests : list (Z * string)) : Z :=
  fold_left (fun _ '(t, _) => t) requests t0.

(** *** Python REPL tool *)

Definition DANGEROUS_IMPORTS : list pystr :=
  List.map py ["os"; "subprocess"; "sys"; "socket"; "urllib";
               "requests"; "shutil"; "tempfile"; "pathlib"]%string.

Definition DANGEROUS_FUNCTIONS : list pystr :=
  List.map py ["eval"; "exec"; "compile"; "__import__";
               "open"; "file"; "input"; "raw_input"]%string.

(** [ToolsService._validate_python_code] *)
Definition _validate_python_code (code : pystr) : bool :=
  negb (existsb (fun dangerous => contains dangerous code)
                (DANGEROUS_IMPORTS ++ DANGEROUS_FUNCTIONS)).

(** *** Intrusion detection *)

Record Request := mkRequest {
  remote_addr : string;
  url : string
}.

Record IntrusionDetectionSystem := mkIDS {
  failed_attempts : gmap string Z;      (* [defaultdict(int)] *)
  blocked_ips : gset string;
  alert_threshold : Z;
  block_duration : Z
}.

(** [IntrusionDetectionSystem()] *)
Definition new_IDS : IntrusionDetectionSystem := mkIDS ∅ ∅ 5 3600.

Definition attempts_of (self : IntrusionDetectionSystem) (ip : string) : Z :=
  default 0 (failed_attempts self !! ip).

Section Intrusion.
(** [_detect_attack_patterns(request)]: the regular-expression search over
    the URL, taken as any predicate on requests. *)
Variable _detect_attack_patterns : Request -> bool.

(** [_block_ip(ip_address)]; the unblock is commented out in the source. *)
Definition _block_ip (ip_address : string) (self : IntrusionDetectionSystem)
  : IntrusionDetectionSystem :=
  mkIDS (failed_attempts self) ({[ip_address]} ∪ blocked_ips self)
        (alert_threshold self) (block_duration self).

(** [IntrusionDetectionSystem.check_request(request)] *)
Definition check_request (request : Request) (self : IntrusionDetectionSystem)
  : bool * IntrusionDetectionSystem :=
  let ip_address := remote_addr request in
  if bool_decide (ip_address ∈ blocked_ips self) then (false, self)
  else if _detect_attack_patterns request then
    let self1 := mkIDS (<[ip_address := attempts_of self ip_address + 1]>
                          (failed_attempts self))
                       (blocked_ips self) (alert_threshold self) (block_duration self) in
    if attempts_of self1 ip_address >=? alert_threshold self1
    then (false, _block_ip ip_address self1)
    else (true, self1)
  else (true, self).

Definition check_requests (requests : list Request) (self : IntrusionDetectionSystem)
  : IntrusionDetectionSystem :=
  fold_left (fun s r => snd (check_request r s)) requests self.
End Intrusion.

(** *** Session timeout *)

(** The values a Flask session holds here. *)
Inductive SessionValue :=
| SStr (s : string)
| STime (t : Z).          (* a [datetime], in microseconds *)

(** [(a - b).seconds]: the seconds field of the normalised [timedelta]. *)
Definition timedelta_seconds (microseconds : Z) : Z :=
  (microseconds mod 86400000000) / 1000000.

Definition session_timeout : Z := 3600.

Inductive Verdict :=
| Valid
| Invalid
| RaisesTypeError.       (* [datetime - str] *)

(** [SecureSessionManager.validate_session()]; [now] and [now_refresh]
    are the two readings of [datetime.utcnow()].  The verdict and the
    Flask session after. *)
Definition validate_session (now now_refresh : Z) (session : gmap string SessionValue)
  : Verdict * gmap string SessionValue :=
  match session !! "session_id"%string with
  | None => (Invalid, session)
  | Some _ =>
      let refreshed := <["last_activity"%string := STime now_refresh]> session in
      match session !! "last_activity"%string with
      | Some (STime last_activity) =>
          if timedelta_seconds (now - last_activity) >? session_timeout
          then (Invalid, ∅)                        (* [destroy_session()] *)
          else (Valid, refreshed)
      | Some (SStr "") => (Valid, refreshed)       (* falsy: no check *)
      | Some (SStr _) => (RaisesTypeError, session)
      | None => (Valid, refreshed)
      end
  end.

(** The requests of a history that came from [ip] and matched an attack
    pattern. *)
Definition attacks (detect : Request -> bool) (requests : list Request) (ip : string) : Z :=
  Z.of_nat (length (List.filter
                      (fun r => String.eqb (remote_addr r) ip && detect r) requests)).

(** What the detection system is after a history of requests. *)
Definition accounted (detect : Request -> bool) (requests : list Request)
    (self : IntrusionDetectionSystem) : Prop :=
  alert_threshold self = 5 /\
  forall ip,
    attempts_of self ip = Z.min 5 (attacks detect requests ip) /\
    (ip ∈ blocked_ips self <-> 5 <= attacks detect requests ip).

(** A detector for the examples: the URL is the directory-traversal
    probe. *)
Definition probe_detector (r : Request) : bool := String.eqb (url r) "/../etc/passwd".

Definition probe : Request := mkRequest "10.0.0.9" "/../etc/passwd".

(** A session as [create_session] stores it. *)
Definition fresh_session (session_id : string) (now : Z) : gmap string SessionValue :=
  <["session_id"%string := SStr session_id]>
    (<["created_at"%string := STime now]>
       (<["last_activity"%string := STime now]>
          (<["ip_address"%string := SStr "10.0.0.1"]>
             (<["user_agent"%string := SStr "curl"]> ∅)))).

(** *** Search query sanitising *)

(** The character class of the pattern: less-than, greater-than, double
    quote and single quote (code points 60, 62, 34, 39). *)
Definition query_forbidden (c : N) : bool :=
  N.eqb c 60 || N.eqb c 62 || N.eqb c 34 || N.eqb c 39.

(** [PerplexitySecurityManager._sanitize_search_query]:
    [re.sub] with the empty replacement, then [[:500]]. *)
Definition _sanitize_search_query (query : pystr) : pystr :=
  firstn 500 (List.filter (fun c => negb (query_forbidden c)) query).

End Guardrails.

(** ** Measures on breaker histories and retry traces *)
Module Resilience.
Local Open Scope Z_scope.

(** The number of calls of a history whose operation raised. *)
Definition failures {V E} (history : list (Z * Breaker.Outcome V E)) : Z :=
  Z.of_nat (length (List.filter
                      (fun c => match snd c with Breaker.Raised _ _ => true | _ => false end)
                      history)).

(** The seconds slept in a trace of [with_retry]. *)
Fixpoint total_sleep (trace : list Retry.Event) : Z :=
  match trace with
  | [] => 0
  | Retry.Sleep seconds :: rest => seconds + total_sleep rest
  | Retry.Invoke :: rest => total_sleep rest
  end.

(** An operation that always times out. *)
Definition always_timeout : nat -> Retry.Outcome string string Empty_set * nat :=
  fun n => (Retry.Raises "timeout"%string, S n).

End Resilience.

(** ** Model input sanitising
    [docs/Security-Guidelines.md], [BedrockSecurityManager]. *)
Module PromptGuard.
Import Guardrails.

(** [s.replace(old, new)] for a non-empty [old], scanning from the left;
    [skip] counts the characters of a match still to be passed over. *)
Fixpoint replace_from (skip : nat) (old new s : pystr) : pystr :=
  match s with
  | [] => []
  | c :: rest =>
      match skip with
      | S k => replace_from k old new rest
      | O =>
          if starts_with old s
          then new ++ replace_from (length old - 1) old new rest
          else c :: replace_from 0 old new rest
      end
  end.

(** [s.replace(old, new)]; an empty [old] matches between all characters. *)
Definition str_replace (old new s : pystr) : pystr :=
  match old with
  | [] => new ++ flat_map (fun c => c :: new) s
  | _ :: _ => replace_from 0 old new s
  end.

Definition dangerous_phrases : list pystr :=
  List.map py ["ignore previous instructions"; "forget your role";
               "act as if you are"; "pretend to be"]%string.

Definition FILTERED : pystr := py "[FILTERED]".

(** [BedrockSecurityManager._sanitize_content] *)
Definition _sanitize_content (content : pystr) : pystr :=
  firstn 5000
    (fold_left (fun sanitized_content phrase => str_replace phrase FILTERED sanitized_content)
               dangerous_phrases content).

(** The loop over the phrases. *)
Definition replace_all (new : pystr) (phrases : list pystr) (s : pystr) : pystr :=
  fold_left (fun sanitized phrase => str_replace phrase new sanitized) phrases s.

(** No character of [new] occurs in [p]. *)
Definition foreign (new p : pystr) : Prop :=
  forall x, In x new -> ~ In x p.

Definition foreignb (new p : pystr) : bool :=
  forallb (fun x => negb (existsb (N.eqb x) p)) new.

End PromptGuard.

(** ** Pages and their bubbles *)
Module ChatState.
Import Chat.





(** The page after the chat was cleared and the next message was sent and
    answered. *)
Definition after_clear : option Page :=
  run [Clear; Type_ hi; Send; Settle 0 (Succeeded hi None)] (initial_page (js "s1")).

(** The page after typing, sending, and an answer that failed. *)
Definition after_failure : option Page :=
  run [Type_ hi; Send; Settle 0 Threw] (initial_page (js "s1")).

End ChatState.

Module CalendarFacts.
Import Calendar.
Local Open Scope Z_scope.

Lemma conflicts_with_spec e s t :
  conflicts_with e s t = true <-> start_time e < t /\ end_time e > s.
Proof.
  unfold conflicts_with.
  rewrite negb_true_iff, orb_false_iff, Z.leb_gt, Z.geb_leb, Z.leb_gt. lia.
Qed.

Lemma conflicts_with_false e s t :
  conflicts_with e s t = false <-> end_time e <= s \/ t <= start_time e.
Proof.
  rewrite <- not_true_iff_false, conflicts_with_spec. lia.
Qed.

Lemma filter_pred_spec e s t :
  (start_time e <? t) && (end_time e >? s) = conflicts_with e s t.
Proof.
  unfold conflicts_with.
  rewrite Z.gtb_ltb, Z.geb_leb.
  destruct (Z.ltb_spec (start_time e) t), (Z.ltb_spec s (end_time e)),
    (Z.leb_spec (end_time e) s), (Z.leb_spec t (start_time e));
    simpl; try reflexivity; lia.
Qed.

Lemma _check_conflicts_In events e s t :
  In e (_check_conflicts events s t) <->
  In e events /\ start_time e < t /\ end_time e > s.
Proof.
  unfold _check_conflicts. rewrite filter_In, filter_pred_spec, conflicts_with_spec.
  reflexivity.
Qed.

End CalendarFacts.

(** *** C3, C7: the conflict check *)
Module CalendarClaims.
Import Calendar CalendarFacts.
Local Open Scope Z_scope.

(** A zero-duration candidate inside an event is reported. *)
Lemma zero_duration_inside_conflicts :
  conflicts_with ev_3_8 5 5 = true /\ _check_conflicts [ev_3_8] 5 5 = [ev_3_8].
Proof. split; reflexivity. Qed.

(** C3 (amended).  Both forms of the conflict check report a conflict
    exactly when [existing.start < candidate.end] and
    [existing.end > candidate.start]; intervals that touch at a boundary
    never conflict; a zero-duration interval conflicts exactly with the
    intervals that have its instant strictly inside. *)
Theorem conflict_check_half_open (e : CalendarEvent) (s t : Z) :
  (conflicts_with e s t = true <-> start_time e < t /\ end_time e > s) /\
  (forall events, In e (_check_conflicts events s t) <->
                  In e events /\ start_time e < t /\ end_time e > s) /\
  (end_time e = s \/ start_time e = t -> conflicts_with e s t = false) /\
  (conflicts_with e s s = true <-> start_time e < s /\ s < end_time e) /\
  (start_time e = end_time e ->
   (conflicts_with e s t = true <-> s < start_time e /\ start_time e < t)).
Proof.
  split; [apply conflicts_with_spec|].
  split; [intros events; apply _check_conflicts_In|].
  split; [intros Htouch; apply conflicts_with_false; lia|].
  split; [rewrite conflicts_with_spec; lia|].
  intros Hzero. rewrite conflicts_with_spec. lia.
Qed.

(** C7.  Conflict detection is symmetric: an event conflicts with the time
    range of another exactly when the other conflicts with its own, for
    the method and for the query alike. *)
Theorem conflict_symmetric (a b : CalendarEvent) :
  conflict a b = conflict b a /\
  (In a (_check_conflicts [a] (start_time b) (end_time b)) <->
   In b (_check_conflicts [b] (start_time a) (end_time a))).
Proof.
  split.
  - unfold conflict. apply eq_true_iff_eq.
    rewrite !conflicts_with_spec. lia.
  - rewrite !_check_conflicts_In. simpl. intuition lia.
Qed.

End CalendarClaims.

(** *** The breaker's invariant *)
Module BreakerFacts.
Import Breaker.
Local Open Scope Z_scope.

Lemma init_tripped_ok threshold timeout : tripped_ok (init threshold timeout).
Proof. intros H. simpl in H. congruence. Qed.

Lemma gate_inl {V E} now cb cb' :
  gate (V:=V) (E:=E) now cb = inl cb' ->
  (state cb <> OPEN /\ cb' = cb) \/
  (state cb = OPEN /\ cb' = set_state HALF_OPEN cb /\
   exists last, last_failure_time cb = Some last /\ now - last > timeout cb).
Proof.
  unfold gate. destruct (state cb) eqn:Hs.
  - intros [= <-]. left. split; congruence.
  - destruct (last_failure_time cb) as [last|]; [|discriminate].
    destruct (now - last >? timeout cb) eqn:Hgt; [|discriminate].
    intros [= <-]. right. repeat split; trivial.
    exists last. split; trivial. apply Z.gtb_lt in Hgt. lia.
  - intros [= <-]. left. split; congruence.
Qed.

Lemma gate_params {V E} now cb cb' :
  gate (V:=V) (E:=E) now cb = inl cb' ->
  failure_threshold cb' = failure_threshold cb /\ timeout cb' = timeout cb /\
  failure_count cb' = failure_count cb /\ last_failure_time cb' = last_failure_time cb.
Proof.
  intros H. apply gate_inl in H as [[_ ->] | [_ [-> _]]]; auto.
Qed.

Lemma gate_tripped_ok {V E} now cb cb' :
  tripped_ok cb -> gate (V:=V) (E:=E) now cb = inl cb' -> tripped_ok cb'.
Proof.
  intros Hok H. apply gate_inl in H as [[_ ->] | [Hopen [-> _]]]; trivial.
  intros _. simpl. apply Hok. congruence.
Qed.

Lemma on_failure_tripped_ok at_time cb :
  tripped_ok cb -> tripped_ok (on_failure at_time cb).
Proof.
  unfold tripped_ok, on_failure. simpl. intros Hok Hst.
  split; [|discriminate].
  destruct (failure_count cb + 1 >=? failure_threshold cb) eqn:Hge.
  - apply Z.geb_le in Hge. exact Hge.
  - apply Hok in Hst. lia.
Qed.

Lemma on_success_tripped_ok cb : tripped_ok cb -> tripped_ok (on_success cb).
Proof.
  unfold tripped_ok, on_success. intros Hok.
  destruct (state cb) eqn:Hs; simpl; rewrite ?Hs; try congruence.
  intros _. apply Hok. congruence.
Qed.

Lemma attempt_tripped_ok {V E} (o : Outcome V E) cb :
  tripped_ok cb -> tripped_ok (fst (attempt o cb)).
Proof.
  destruct o; simpl; auto using on_success_tripped_ok, on_failure_tripped_ok.
Qed.

Lemma call_with_unfold {V E} cb now (o : Outcome V E) :
  call_with cb (now, o) =
  match gate (V:=V) (E:=E) now cb with
  | inr _ => cb
  | inl cb' => fst (attempt o cb')
  end.
Proof.
  unfold call_with, call. simpl.
  destruct (gate now cb); [|reflexivity].
  destruct (attempt o c). reflexivity.
Qed.

Lemma call_with_tripped_ok {V E} cb (c : Z * Outcome V E) :
  tripped_ok cb -> tripped_ok (call_with cb c).
Proof.
  destruct c as [now o]. rewrite call_with_unfold. intros Hok.
  destruct (gate now cb) eqn:Hg; trivial.
  eauto using attempt_tripped_ok, gate_tripped_ok.
Qed.

Lemma calls_tripped_ok {V E} (cs : list (Z * Outcome V E)) cb :
  tripped_ok cb -> tripped_ok (calls cs cb).
Proof.
  revert cb. induction cs as [|c cs IH]; intros cb Hok; simpl; trivial.
  apply IH, call_with_tripped_ok, Hok.
Qed.

Lemma call_with_params {V E} cb (c : Z * Outcome V E) :
  failure_threshold (call_with cb c) = failure_threshold cb /\
  timeout (call_with cb c) = timeout cb.
Proof.
  destruct c as [now o]. rewrite call_with_unfold.
  destruct (gate now cb) as [cb'|] eqn:Hg; auto.
  apply gate_params in Hg as (Hth & Hto & _).
  rewrite <- Hth, <- Hto.
  destruct o; simpl; auto. unfold on_success. destruct (state cb'); auto.
Qed.

Lemma calls_params {V E} (cs : list (Z * Outcome V E)) cb :
  failure_threshold (calls cs cb) = failure_threshold cb /\
  timeout (calls cs cb) = timeout cb.
Proof.
  revert cb. induction cs as [|c cs IH]; intros cb; simpl; auto.
  destruct (IH (call_with cb c)) as [-> ->]. apply call_with_params.
Qed.

End BreakerFacts.

(** *** C4, C5: the circuit breaker *)
Module BreakerClaims.
Import Breaker BreakerFacts.
Local Open Scope Z_scope.

(** C4.  After any sequence of calls on a breaker created with
    [threshold] and [timeout], the next call does the following, whatever
    the operation and the backend.
    - The breaker is CLOSED: a call whose operation fails counts the
      failure and records its time; it opens the breaker when the count
      reaches the threshold and leaves it CLOSED when it does not.
    - The breaker is OPEN, the last failure was at [last].  A call made no
      more than [timeout] after [last] is refused: the operation is not
      invoked and the breaker stays OPEN.  A call made more than [timeout]
      after [last] puts the breaker in HALF_OPEN and invokes the
      operation: if it succeeds the breaker is CLOSED with the failure
      count reset to 0; if it fails the breaker is OPEN again, with the
      time of that failure; if the call is abandoned the breaker is left
      HALF_OPEN.
    - The breaker is HALF_OPEN: the operation is invoked; if it succeeds
      the breaker is CLOSED with the failure count reset to 0; if it fails
      the breaker is OPEN, with the time of that failure. *)
Theorem breaker_state_machine (B V E : Type) (threshold timeout : Z)
    (history : list (Z * Outcome V E)) :
  let cb := calls history (init threshold timeout) in
  let count := failure_count cb in
  (state cb = CLOSED ->
   forall now (operation : B -> Outcome V E * B) backend e at_time backend',
     operation backend = (Raised e at_time, backend') ->
     (threshold <= count + 1 ->
      call now operation cb backend =
      (mkBreaker threshold timeout (count + 1) (Some at_time) OPEN,
       backend', Reraised e)) /\
     (count + 1 < threshold ->
      call now operation cb backend =
      (mkBreaker threshold timeout (count + 1) (Some at_time) CLOSED,
       backend', Reraised e))) /\
  (state cb = OPEN ->
   exists last,
     last_failure_time cb = Some last /\
     forall now (operation : B -> Outcome V E * B) backend,
       (now - last <= timeout ->
        call now operation cb backend = (cb, backend, circuit_open) /\
        state cb = OPEN) /\
       (timeout < now - last ->
        gate (V:=V) (E:=E) now cb
        = inl (mkBreaker threshold timeout count (Some last) HALF_OPEN) /\
        (forall v backend',
           operation backend = (Returned v, backend') ->
           call now operation cb backend =
           (mkBreaker threshold timeout 0 (Some last) CLOSED, backend', Value v)) /\
        (forall e at_time backend',
           operation backend = (Raised e at_time, backend') ->
           call now operation cb backend =
           (mkBreaker threshold timeout (count + 1) (Some at_time) OPEN,
            backend', Reraised e)) /\
        (forall backend',
           operation backend = (Escaped, backend') ->
           call now operation cb backend =
           (mkBreaker threshold timeout count (Some last) HALF_OPEN,
            backend', Propagated)))) /\
  (state cb = HALF_OPEN ->
   forall now (operation : B -> Outcome V E * B) backend,
     (forall v backend',
        operation backend = (Returned v, backend') ->
        call now operation cb backend =
        (mkBreaker threshold timeout 0 (last_failure_time cb) CLOSED,
         backend', Value v)) /\
     (forall e at_time backend',
        operation backend = (Raised e at_time, backend') ->
        call now operation cb backend =
        (mkBreaker threshold timeout (count + 1) (Some at_time) OPEN,
         backend', Reraised e))).
Proof.
  intros cb count.
  assert (Hok : tripped_ok cb) by apply calls_tripped_ok, init_tripped_ok.
  destruct (calls_params history (init threshold timeout)) as [Hth Hto].
  fold cb in Hth, Hto. simpl in Hth, Hto.
  subst count. clearbody cb.
  destruct cb as [th to count last st]. unfold tripped_ok in Hok.
  simpl in Hok, Hth, Hto |- *. subst th to.
  split; [|split].
  - intros -> now operation backend e at_time backend' Hop.
    unfold call, gate. simpl. rewrite Hop. simpl. unfold on_failure. simpl.
    split; intros Hcount.
    + replace (count + 1 >=? threshold) with true; trivial.
      symmetry. apply Z.geb_le. lia.
    + replace (count + 1 >=? threshold) with false; trivial.
      symmetry. rewrite Z.geb_leb. apply Z.leb_gt. lia.
  - intros ->. destruct Hok as [Hcount Hlast]; [discriminate|].
    destruct last as [last|]; [|congruence].
    exists last. split; trivial. intros now operation backend. split.
    + intros Hnow. split; trivial. unfold call, gate. simpl.
      replace (now - last >? timeout) with false; trivial.
      symmetry. rewrite Z.gtb_ltb. apply Z.ltb_ge. lia.
    + intros Hnow.
      assert (Hgate : gate (V:=V) (E:=E) now (mkBreaker threshold timeout count (Some last) OPEN)
                      = inl (mkBreaker threshold timeout count (Some last) HALF_OPEN)).
      { unfold gate. simpl. replace (now - last >? timeout) with true; trivial.
        symmetry. apply Z.gtb_lt. lia. }
      split; [exact Hgate|].
      unfold call. rewrite Hgate.
      split; [|split].
      * intros v backend' ->. reflexivity.
      * intros e at_time backend' ->. simpl. unfold on_failure. simpl.
        replace (count + 1 >=? threshold) with true; trivial.
        symmetry. apply Z.geb_le. lia.
      * intros backend' ->. reflexivity.
  - intros ->. destruct Hok as [Hcount _]; [discriminate|].
    intros now operation backend. unfold call, gate. simpl. split.
    + intros v backend' ->. reflexivity.
    + intros e at_time backend' ->. simpl. unfold on_failure. simpl.
      replace (count + 1 >=? threshold) with true; trivial.
      symmetry. apply Z.geb_le. lia.
Qed.

(** The default breaker after five failures, the last at time 5: a call at
    time 65 is refused without contacting the backend, a call at time 66
    contacts it once and closes the breaker. *)
Lemma breaker_state_machine_witness :
  let fail t : Z * Outcome unit unit := (t, Raised tt t) in
  let opened := calls [fail 1; fail 2; fail 3; fail 4; fail 5] default in
  state opened = OPEN /\
  call 65 counting_backend opened 0%nat = (opened, 0%nat, circuit_open) /\
  call 66 counting_backend opened 0%nat
  = (mkBreaker 5 60 0 (Some 5) CLOSED, 1%nat, Value tt).
Proof.
  intros fail opened.
  destruct (breaker_state_machine nat unit unit 5 60
              [fail 1; fail 2; fail 3; fail 4; fail 5]) as (_ & Hopen & _).
  destruct (Hopen eq_refl) as (last & Hlast & Hcall).
  injection Hlast as <-.
  destruct (Hcall 65 counting_backend 0%nat) as [Hrefused _].
  destruct (Hcall 66 counting_backend 0%nat) as [_ Hprobe].
  split; [reflexivity|]. split.
  - apply Hrefused. simpl. lia.
  - destruct Hprobe as (_ & Hsuccess & _); [simpl; lia|].
    apply (Hsuccess tt 1%nat). reflexivity.
Defined.

(** C5.  While the breaker is OPEN and less than [timeout] has passed
    since the last failure, a call raises the circuit-open exception, the
    breaker is as before, and the backend is as before whatever the
    operation would have done to it: the operation is not invoked. *)
Theorem open_breaker_fails_fast (B V E : Type) (operation : B -> Outcome V E * B)
    (cb : CircuitBreaker) (backend : B) (now last : Z) :
  state cb = OPEN ->
  last_failure_time cb = Some last ->
  now - last < timeout cb ->
  call now operation cb backend = (cb, backend, circuit_open).
Proof.
  intros Hopen Hlast Hnow. unfold call, gate. rewrite Hopen, Hlast.
  replace (now - last >? timeout cb) with false; trivial.
  symmetry. rewrite Z.gtb_ltb. apply Z.ltb_ge. lia.
Qed.

(** A breaker opened at time 100 and called at time 130: the counting
    backend stays at 0 contacts. *)
Lemma open_breaker_fails_fast_witness :
  call 130 counting_backend (mkBreaker 5 60 5 (Some 100) OPEN) 0%nat =
  (mkBreaker 5 60 5 (Some 100) OPEN, 0%nat, Exception "Circuit breaker is OPEN").
Proof.
  apply (open_breaker_fails_fast nat unit unit counting_backend
           (mkBreaker 5 60 5 (Some 100) OPEN) 0%nat 130 100);
    [reflexivity | reflexivity | simpl; lia].
Defined.

(** The gate compares strictly: exactly [timeout] after the last failure
    the breaker still refuses the call. *)
Lemma gate_at_the_boundary (V E : Type) (cb : CircuitBreaker) (last : Z) :
  state cb = OPEN -> last_failure_time cb = Some last ->
  gate (V:=V) (E:=E) (last + timeout cb) cb = inr circuit_open.
Proof.
  intros Hopen Hlast. unfold gate. rewrite Hopen, Hlast.
  replace (last + timeout cb - last >? timeout cb) with false; trivial.
  symmetry. rewrite Z.gtb_ltb. apply Z.ltb_ge. lia.
Qed.

(** Five failures open the default breaker; a call 61 seconds later probes
    the backend and, on success, closes it with the count reset. *)
Example default_breaker_round_trip :
  let fail t : Z * Outcome unit unit := (t, Raised tt t) in
  let opened := calls [fail 1; fail 2; fail 3; fail 4; fail 5] default in
  opened = mkBreaker 5 60 5 (Some 5) OPEN /\
  call_with opened (66, Returned (E:=unit) tt) = mkBreaker 5 60 0 (Some 5) CLOSED /\
  call_with opened (66, Raised (V:=unit) tt 67) = mkBreaker 5 60 6 (Some 67) OPEN.
Proof. repeat split. Qed.

End BreakerClaims.

(** *** C6: retry *)
Module RetryFacts.
Import Retry.
Local Open Scope Z_scope.

Lemma range_3 : range 3 = [0; 1; 2].
Proof. reflexivity. Qed.

Lemma length_range n : length (range n) = Z.to_nat n.
Proof. unfold range. rewrite length_map, length_seq. reflexivity. Qed.

(** The loop invokes the operation at most once per remaining attempt. *)
Lemma loop_invocations {B V E X} (operation : B -> Outcome V E X * B)
    max_retries attempts backend :
  (invocations (snd (fst (loop operation max_retries attempts backend)))
   <= length attempts)%nat.
Proof.
  unfold invocations.
  revert backend. induction attempts as [|attempt rest IH]; intros backend; simpl.
  - lia.
  - destruct (operation backend) as [[v|e|x] backend']; simpl; [lia| |lia].
    destruct (attempt =? max_retries - 1); simpl; [lia|].
    specialize (IH backend').
    destruct (loop operation max_retries rest backend') as [[r trace] backend''].
    simpl in *. lia.
Qed.

Lemma with_retry_invocations {B V E X} (operation : B -> Outcome V E X * B)
    max_retries backend :
  (invocations (snd (fst (with_retry operation max_retries backend)))
   <= Z.to_nat max_retries)%nat.
Proof.
  unfold with_retry. rewrite <- length_range. apply loop_invocations.
Qed.

End RetryFacts.

Module RetryClaims.
Import Retry RetryFacts.
Local Open Scope Z_scope.

(** C6.  With [max_retries = 3], [with_retry] invokes the operation at most
    three times; it returns the value of the first invocation that
    succeeds and invokes nothing after it; between one failed invocation
    and the next it sleeps [2 ^ attempt] seconds (1, then 2); and when all
    three invocations fail it raises the error of the third.  (An exception
    that is not an [Exception] ends the call at the invocation that
    raised it.) *)
Theorem with_retry_three_attempts (B V E X : Type)
    (operation : B -> Outcome V E X * B) (backend : B) :
  (invocations (snd (fst (with_retry operation 3 backend))) <= 3)%nat /\
  with_retry operation 3 backend =
  match operation backend with
  | (Returns v, b1) => (Return v, [Invoke], b1)
  | (Escapes x, b1) => (Propagate x, [Invoke], b1)
  | (Raises _, b1) =>
      match operation b1 with
      | (Returns v, b2) => (Return v, [Invoke; Sleep (2 ^ 0); Invoke], b2)
      | (Escapes x, b2) => (Propagate x, [Invoke; Sleep (2 ^ 0); Invoke], b2)
      | (Raises _, b2) =>
          match operation b2 with
          | (Returns v, b3) =>
              (Return v, [Invoke; Sleep (2 ^ 0); Invoke; Sleep (2 ^ 1); Invoke], b3)
          | (Escapes x, b3) =>
              (Propagate x, [Invoke; Sleep (2 ^ 0); Invoke; Sleep (2 ^ 1); Invoke], b3)
          | (Raises e, b3) =>
              (Raise e, [Invoke; Sleep (2 ^ 0); Invoke; Sleep (2 ^ 1); Invoke], b3)
          end
      end
  end.
Proof.
  split; [apply (with_retry_invocations operation 3 backend)|].
  unfold with_retry. rewrite range_3. simpl.
  destruct (operation backend) as [[v|e1|x] b1]; trivial.
  destruct (operation b1) as [[v|e2|x] b2]; trivial.
  destruct (operation b2) as [[v|e3|x] b3]; trivial.
Qed.

(** A backend that times out twice and then answers; one that times out
    three times. *)
Example with_retry_flaky :
  with_retry flaky 3 2%nat =
    (Return "pong"%string, [Invoke; Sleep 1; Invoke; Sleep 2; Invoke], 0%nat) /\
  with_retry flaky 3 5%nat =
    (Raise "timeout"%string, [Invoke; Sleep 1; Invoke; Sleep 2; Invoke], 2%nat).
Proof. split; reflexivity. Qed.

End RetryClaims.

(** *** C8, C9: session state and agent selection *)
Module WorkflowFacts.
Import Workflow.

Lemma dict_get_set_eq {A} k (v : A) d : dict_get k (dict_set k v d) = Some v.
Proof.
  induction d as [|[k' v'] rest IH]; simpl.
  - rewrite String.eqb_refl. reflexivity.
  - destruct (String.eqb k k') eqn:Hk; simpl; rewrite Hk; auto.
Qed.

Lemma dict_get_set_ne {A} k k' (v : A) d :
  k' <> k -> dict_get k' (dict_set k v d) = dict_get k' d.
Proof.
  intros Hne. induction d as [|[k0 v0] rest IH]; simpl.
  - apply String.eqb_neq in Hne. rewrite Hne. reflexivity.
  - destruct (String.eqb k k0) eqn:Hk; simpl.
    + apply String.eqb_eq in Hk. subst k0.
      apply String.eqb_neq in Hne. rewrite Hne. reflexivity.
    + destruct (String.eqb k' k0); auto.
Qed.

Lemma dict_get_set_is_Some {A} k k' (v : A) d :
  is_Some (dict_get k' d) -> is_Some (dict_get k' (dict_set k v d)).
Proof.
  intros H. destruct (String.eqb_spec k' k) as [->|Hne].
  - rewrite dict_get_set_eq. eauto.
  - rewrite dict_get_set_ne; assumption.
Qed.

Lemma dict_get_elem {A} k (v : A) d : In (k, v) d -> is_Some (dict_get k d).
Proof.
  induction d as [|[k' v'] rest IH]; simpl; [tauto|].
  intros [[= -> ->] | Hin].
  - rewrite String.eqb_refl. eauto.
  - destruct (String.eqb k k'); eauto.
Qed.

Lemma max_from_In {A} (key : A -> Q) best items :
  In (max_from key best items) (best :: items).
Proof.
  revert best. induction items as [|x rest IH]; intros best; simpl; auto.
  destruct (Qle_bool (key x) (key best)).
  - destruct (IH best) as [<- | Hin]; simpl; auto.
  - destruct (IH x) as [<- | Hin]; simpl; auto.
Qed.

Section Scores.
Variable score : BaseAgent -> string -> gmap string Any -> Q.
Variable task : string.
Variable context : gmap string Any.

Let turn := turn score task context.

Lemma turns_keep k agents scores :
  is_Some (dict_get k scores) -> is_Some (dict_get k (fold_left turn agents scores)).
Proof.
  revert scores. induction agents as [|[k' a] rest IH]; intros scores H; simpl; trivial.
  apply IH. destruct (can_handle a task context); trivial.
  apply dict_get_set_is_Some, H.
Qed.

Lemma turns_add k agent agents scores :
  dict_get k agents = Some agent -> can_handle agent task context = true ->
  is_Some (dict_get k (fold_left turn agents scores)).
Proof.
  revert scores. induction agents as [|[k' a] rest IH]; intros scores; simpl; [discriminate|].
  destruct (String.eqb_spec k k') as [<-|Hne].
  - intros [= ->] Hcan. rewrite Hcan. apply turns_keep.
    rewrite dict_get_set_eq. eauto.
  - intros Hget Hcan. apply IH; assumption.
Qed.

Lemma turns_keys k agents scores :
  is_Some (dict_get k (fold_left turn agents scores)) ->
  is_Some (dict_get k scores) \/ is_Some (dict_get k agents).
Proof.
  revert scores. induction agents as [|[k' a] rest IH]; intros scores; simpl; auto.
  intros H. apply IH in H as [H|H].
  - destruct (String.eqb_spec k k') as [<-|Hne]; [right; eauto|].
    left. destruct (can_handle a task context); trivial.
    rewrite dict_get_set_ne in H; assumption.
  - destruct (String.eqb k k'); eauto.
Qed.
End Scores.

End WorkflowFacts.

Module WorkflowClaims.
Import Workflow WorkflowFacts.

(** C8.  [add_message] appends exactly one entry, built from its
    arguments, at the end of [message_history]; the entries already there
    keep their positions; [last_activity] is set to the clock's reading;
    [session_id], [created_at], [agent_states] and [context] are as
    before. *)
Theorem add_message_frame (self : WorkflowState) (role content : string)
    (agent_type : option string) (t_message t_activity : Z) :
  let self' := add_message role content agent_type t_message t_activity self in
  let entry := mkMessage role content agent_type t_message in
  message_history self' = message_history self ++ [entry] /\
  length (message_history self') = S (length (message_history self)) /\
  (forall i m, message_history self !! i = Some m -> message_history self' !! i = Some m) /\
  message_history self' !! length (message_history self) = Some entry /\
  last_activity self' = t_activity /\
  session_id self' = session_id self /\
  created_at self' = created_at self /\
  agent_states self' = agent_states self /\
  context self' = context self.
Proof.
  simpl. repeat split.
  - rewrite length_app. simpl. lia.
  - intros i m Hi. apply lookup_app_l_Some, Hi.
  - rewrite lookup_app_r by lia. rewrite Nat.sub_diag. reflexivity.
Qed.

(** C9.  The Personal Assistant's [can_handle] is true for every task and
    context; so when it is registered under its key, the scores collected
    by [_select_best_agent] contain its entry, the maximum is taken over a
    non-empty collection, and the selection returns an agent. *)
Theorem coordinator_always_candidate
    (score : BaseAgent -> string -> gmap string Any -> Q)
    (agents : dict BaseAgent) (task : string) (context : gmap string Any) :
  dict_get "personal_assistant" agents = Some PersonalAssistantAgent ->
  can_handle PersonalAssistantAgent task context = true /\
  is_Some (dict_get "personal_assistant" (agent_scores score agents task context)) /\
  agent_scores score agents task context <> [] /\
  exists agent, _select_best_agent score agents task context = inl agent.
Proof.
  intros Hreg.
  assert (Hpa : is_Some (dict_get "personal_assistant"
                           (agent_scores score agents task context))).
  { unfold agent_scores. eapply turns_add; [exact Hreg | reflexivity]. }
  split; [reflexivity|]. split; [exact Hpa|].
  unfold _select_best_agent.
  destruct (agent_scores score agents task context) as [|first rest] eqn:Hscores.
  { destruct Hpa as [? Hpa]. discriminate. }
  split; [discriminate|]. simpl.
  pose proof (max_from_In snd first rest) as Hin.
  destruct (max_from snd first rest) as [best best_score].
  rewrite <- Hscores in Hin. apply dict_get_elem in Hin.
  unfold agent_scores in Hin. apply turns_keys in Hin as [[? Hin]|[agent Hin]].
  - discriminate.
  - rewrite Hin. eauto.
Qed.

(** With the coordinator and an agent that refuses everything registered,
    the selection returns the coordinator. *)
Lemma coordinator_always_candidate_witness :
  let agents := register_agent picky_agent (register_agent PersonalAssistantAgent []) in
  can_handle PersonalAssistantAgent "hello" ∅ = true /\
  is_Some (dict_get "personal_assistant" (agent_scores (fun _ _ _ => 1%Q) agents "hello" ∅)) /\
  agent_scores (fun _ _ _ => 1%Q) agents "hello" ∅ <> [] /\
  exists agent, _select_best_agent (fun _ _ _ => 1%Q) agents "hello" ∅ = inl agent.
Proof.
  apply (coordinator_always_candidate (fun _ _ _ => 1%Q)
           (register_agent picky_agent (register_agent PersonalAssistantAgent []))
           "hello" ∅).
  reflexivity.
Defined.

(** Without the coordinator the same selection can fail: the maximum of an
    empty collection raises [ValueError]. *)
Example selection_without_coordinator :
  _select_best_agent (fun _ _ _ => 1%Q) (register_agent picky_agent []) "hello" ∅
  = inr ValueError.
Proof. reflexivity. Qed.

End WorkflowClaims.

(** *** C1, C2: the engine *)
Module EngineFacts.
Import Workflow Engine.


Section Counting.
Variable max_iterations : Z.
Variable floor : Q.
Variable agents : dict BaseAgent.
Variable breakers : string -> Breaker.CircuitBreaker.
Variable classify : string -> gmap string Any -> Decision.
Variable execute : string -> string -> Session -> Outcome.












End Counting.

End EngineFacts.

Module EngineClaims.
Import Workflow Engine EngineFacts.



(** The same proposal at three confidences: 0.3 under the floor of 0.5
    and 0.6 under the repository's [delegation_threshold] of 0.7 go to the
    coordinator, 0.9 goes to the calendar worker. *)
Example delegation_by_confidence :
  route spec_default_floor two_agents all_closed "Schedule a meeting" ∅
        (to_calendar (3 # 10)) = coordinator /\
  route (delegation_threshold PERSONAL_ASSISTANT_CONFIG) two_agents all_closed
        "Schedule a meeting" ∅ (to_calendar (6 # 10)) = coordinator /\
  route (delegation_threshold PERSONAL_ASSISTANT_CONFIG) two_agents all_closed
        "Schedule a meeting" ∅ (to_calendar (9 # 10)) = "calendar_agent"%string.
Proof. repeat split. Qed.



(** The scenario of the specification: with the maximum at 10, ten tasks
    succeed and the eleventh is rejected. *)
Example eleventh_task_rejected :
  let tasks := List.map (fun n => (Z.of_nat n, "s1"%string, "task"%string)) (seq 1 11) in
  List.map (fun sr => is_success (snd sr))
    (snd (processTasks (SecurityConfig_MAX_AGENT_ITERATIONS None) (7 # 10) two_agents
            all_closed always_calendar always_done tasks ∅))
  = [true; true; true; true; true; true; true; true; true; true; false].
Proof. vm_compute. reflexivity. Qed.

End EngineClaims.

(** *** C10: the web client *)
Module ChatFacts.
Import Chat.

Lemma sendMessage_begin_blocked p :
  trim (messageInput_value (chat p)) = [] \/ isProcessing (chat p) = true ->
  sendMessage_begin p = p.
Proof.
  unfold sendMessage_begin. intros [-> | ->]; [reflexivity|].
  destruct (trim (messageInput_value (chat p))); reflexivity.
Qed.

Lemma sendMessage_begin_sends p :
  trim (messageInput_value (chat p)) <> [] -> isProcessing (chat p) = false ->
  isProcessing (chat (sendMessage_begin p)) = true /\
  in_flight (sendMessage_begin p) =
  in_flight p ++ [mkRequest (trim (messageInput_value (chat p))) (sessionId (chat p))].
Proof.
  unfold sendMessage_begin. intros Hmsg ->.
  destruct (trim (messageInput_value (chat p))); [congruence|].
  split; reflexivity.
Qed.

Lemma sendMessage_resume_clears r c :
  isProcessing (sendMessage_resume r c) = false.
Proof. reflexivity. Qed.

Lemma step_in_step a p p' : in_step p -> step a p = Some p' -> in_step p'.
Proof.
  unfold in_step. intros Hinv. destruct a as [v| |i r|]; simpl.
  - intros [= <-]. exact Hinv.
  - intros [= <-].
    destruct (isProcessing (chat p)) eqn:Hproc.
    + rewrite sendMessage_begin_blocked by auto. rewrite Hproc. exact Hinv.
    + destruct (trim (messageInput_value (chat p))) as [|u message] eqn:Hmsg.
      * rewrite sendMessage_begin_blocked by auto. rewrite Hproc. exact Hinv.
      * destruct (sendMessage_begin_sends p) as [-> ->]; [congruence | exact Hproc |].
        rewrite length_app, Hinv. reflexivity.
  - destruct (nth_error (in_flight p) i) as [req|] eqn:Hnth; [|discriminate].
    intros [= <-]. simpl.
    destruct (in_flight p) as [|req' rest]; [destruct i; discriminate|].
    destruct (isProcessing (chat p)); [|discriminate].
    destruct rest; [|discriminate].
    destruct i as [|[|i]]; try discriminate. reflexivity.
  - intros [= <-]. exact Hinv.
Qed.

Lemma reachable_in_step sessionId p : reachable sessionId p -> in_step p.
Proof.
  induction 1 as [|a p p' _ IH Hstep].
  - reflexivity.
  - exact (step_in_step a p p' IH Hstep).
Qed.

Lemma step_clears_only_on_settle a p p' :
  step a p = Some p' ->
  isProcessing (chat p) = true -> isProcessing (chat p') = false ->
  exists i r, a = Settle i r.
Proof.
  destruct a as [v| |i r|]; simpl; eauto.
  - intros [= <-]. simpl. congruence.
  - intros [= <-] Hproc. rewrite sendMessage_begin_blocked by auto. congruence.
  - intros [= <-]. simpl. congruence.
Qed.

End ChatFacts.

Module ChatClaims.
Import Chat ChatFacts.

(** C10.  On every page a session can reach: [sendMessage] issues no
    request and changes nothing when the trimmed input is empty or
    [isProcessing] is set; otherwise it sets [isProcessing] and issues
    exactly one request; [isProcessing] is cleared only by the
    continuation that handles a settled request; and so at most one chat
    request is in flight, exactly when [isProcessing] is set. *)
Theorem at_most_one_chat_request (sessionId0 : jsstring) (p : Page) :
  reachable sessionId0 p ->
  (trim (messageInput_value (chat p)) = [] \/ isProcessing (chat p) = true ->
   sendMessage_begin p = p) /\
  (trim (messageInput_value (chat p)) <> [] -> isProcessing (chat p) = false ->
   isProcessing (chat (sendMessage_begin p)) = true /\
   in_flight (sendMessage_begin p) =
   [mkRequest (trim (messageInput_value (chat p))) (sessionId (chat p))]) /\
  (forall a p', step a p = Some p' ->
     isProcessing (chat p) = true -> isProcessing (chat p') = false ->
     exists i r, a = Settle i r) /\
  (length (in_flight p) <= 1)%nat /\
  (isProcessing (chat p) = true <-> length (in_flight p) = 1%nat).
Proof.
  intros Hreach. pose proof (reachable_in_step _ _ Hreach) as Hinv.
  unfold in_step in Hinv.
  split; [apply sendMessage_begin_blocked|].
  split.
  { intros Hmsg Hproc.
    destruct (sendMessage_begin_sends p Hmsg Hproc) as [-> ->].
    rewrite Hproc in Hinv. destruct (in_flight p); [split; reflexivity | discriminate]. }
  split; [intros a p'; apply step_clears_only_on_settle|].
  destruct (isProcessing (chat p)); rewrite Hinv; split; try lia; split; congruence.
Qed.

(** The page after the user typed "hi" and pressed send: one request in
    flight, a second send changes nothing. *)
Lemma at_most_one_chat_request_witness :
  let p := sendMessage_begin (mkPage (set_input hi (new_ChatInterface (js "s1"))) []) in
  sendMessage_begin p = p /\
  (length (in_flight p) <= 1)%nat /\
  (isProcessing (chat p) = true <-> length (in_flight p) = 1%nat).
Proof.
  intros p.
  assert (Hreach : reachable (js "s1") p).
  { apply (reach_step _ Send (mkPage (set_input hi (new_ChatInterface (js "s1"))) []));
      [|reflexivity].
    apply (reach_step _ (Type_ hi) (initial_page (js "s1"))); [|reflexivity].
    apply reach_initial. }
  destruct (at_most_one_chat_request (js "s1") p Hreach) as (Hblocked & _ & _ & Hone & Hiff).
  split; [apply Hblocked; right; reflexivity|].
  split; [exact Hone | exact Hiff].
Defined.

(** A whole exchange: type, send, a second send while waiting, the answer,
    and the next message. *)
Example chat_exchange :
  option_map (fun p => (isProcessing (chat p), length (in_flight p)))
    (run [Type_ hi; Send; Type_ hi; Send; Settle 0 (Succeeded hi None); Type_ hi; Send]
         (initial_page (js "s1")))
  = Some (true, 1%nat).
Proof. reflexivity. Qed.

End ChatClaims.

(** *** Persistence: agent states, sessions, retention *)
Module DatabaseFacts.
Import Database.
Local Open Scope Z_scope.

Lemma find_update_first_hit {A} (p : A -> bool) (f : A -> A) rows row :
  (forall r, p r = true -> p (f r) = true) ->
  List.find p rows = Some row ->
  List.find p (update_first p f rows) = Some (f row).
Proof.
  intros Hf. induction rows as [|r rest IH]; simpl; [discriminate|].
  destruct (p r) eqn:Hp.
  - intros [= ->]. simpl. rewrite (Hf _ Hp). reflexivity.
  - intros Hfind. simpl. rewrite Hp. auto.
Qed.

Lemma find_update_first_other {A} (p q : A -> bool) (f : A -> A) rows :
  (forall r, p r = true -> q r = false) ->
  (forall r, q (f r) = q r) ->
  List.find q (update_first p f rows) = List.find q rows.
Proof.
  intros Hpq Hf. induction rows as [|r rest IH]; simpl; trivial.
  destruct (p r) eqn:Hp; simpl.
  - rewrite Hf, (Hpq _ Hp). reflexivity.
  - rewrite IH. reflexivity.
Qed.

Lemma map_update_first {A B} (p : A -> bool) (f : A -> A) (g : A -> B) rows :
  (forall r, g (f r) = g r) ->
  List.map g (update_first p f rows) = List.map g rows.
Proof.
  intros Hf. induction rows as [|r rest IH]; simpl; trivial.
  destruct (p r); simpl; congruence.
Qed.

Lemma find_app_miss {A} (p : A -> bool) rows row :
  List.find p rows = None -> List.find p (rows ++ [row]) = (if p row then Some row else None).
Proof.
  induction rows as [|r rest IH]; simpl; trivial.
  destruct (p r); [discriminate | exact IH].
Qed.

Lemma find_app_hit {A} (p : A -> bool) rows more row :
  List.find p rows = Some row -> List.find p (rows ++ more) = Some row.
Proof.
  induction rows as [|r rest IH]; simpl; [discriminate|].
  destruct (p r); auto.
Qed.

Lemma find_none_forall {A} (p : A -> bool) rows :
  List.find p rows = None -> forall r, In r rows -> p r = false.
Proof. intros H r Hin. exact (find_none p rows H r Hin). Qed.

Lemma state_matches_true session_id agent_type row :
  state_matches session_id agent_type row = true <->
  (as_session_id row, as_agent_type row) = (session_id, agent_type).
Proof.
  unfold state_matches. rewrite andb_true_iff, !String.eqb_eq.
  split; [intros [-> ->]; reflexivity | intros [= -> ->]; auto].
Qed.

Lemma state_matches_other s a s' a' row :
  (s', a') <> (s, a) -> state_matches s a row = true -> state_matches s' a' row = false.
Proof.
  intros Hne Hm. apply state_matches_true in Hm.
  apply not_true_iff_false. rewrite state_matches_true. congruence.
Qed.

Lemma filter_filter {A} (p q : A -> bool) l :
  List.filter q (List.filter p l) = List.filter (fun x => p x && q x) l.
Proof.
  induction l as [|x l IH]; simpl; trivial.
  destruct (p x); simpl; [destruct (q x)|]; congruence.
Qed.

Lemma filter_all {A} (p : A -> bool) l :
  (forall x, In x l -> p x = true) -> List.filter p l = l.
Proof.
  induction l as [|x l IH]; simpl; trivial. intros H.
  rewrite (H x) by auto. f_equal. auto.
Qed.

Lemma filter_none {A} (p : A -> bool) l :
  (forall x, In x l -> p x = false) -> List.filter p l = [].
Proof.
  induction l as [|x l IH]; simpl; trivial. intros H.
  rewrite (H x) by auto. auto.
Qed.

Lemma length_filter_split {A} (p : A -> bool) l :
  (length (List.filter p l) + length (List.filter (fun x => negb (p x)) l))%nat = length l.
Proof.
  induction l as [|x l IH]; simpl; trivial.
  destruct (p x); simpl; lia.
Qed.

(** Rows with distinct keys: a key found among them identifies the row. *)
Lemma NoDup_map_eq {A B} (g : A -> B) l x y :
  List.NoDup (List.map g l) -> In x l -> In y l -> g x = g y -> x = y.
Proof.
  induction l as [|a l IH]; simpl; [tauto|].
  intros Hnd [-> | Hx] [-> | Hy] Hg; trivial.
  - apply NoDup_cons_iff in Hnd as [Hnotin _]. exfalso. apply Hnotin.
    rewrite Hg. apply in_map, Hy.
  - apply NoDup_cons_iff in Hnd as [Hnotin _]. exfalso. apply Hnotin.
    rewrite <- Hg. apply in_map, Hx.
  - apply NoDup_cons_iff in Hnd as [_ Hnd]. auto.
Qed.

Lemma NoDup_snoc {A} (l : list A) x :
  List.NoDup l -> ~ In x l -> List.NoDup (l ++ [x]).
Proof.
  induction l as [|a l IH]; simpl; intros Hnd Hnotin.
  - constructor; [tauto | constructor].
  - apply List.NoDup_cons_iff in Hnd as [Ha Hnd]. apply List.NoDup_cons_iff. split.
    + rewrite in_app_iff. simpl. intuition congruence.
    + apply IH; tauto.
Qed.

Lemma fold_delete_session olds db :
  fold_left delete_session olds db =
  mkDB (List.filter (fun s => negb (existsb (fun o => cs_id s =? cs_id o) olds))
                    (chat_sessions db))
       (List.filter (fun m => negb (existsb (fun o => String.eqb (cm_session_id m)
                                                                 (cs_session_id o)) olds))
                    (chat_messages db))
       (agent_states db) (next_session_id db) (next_agent_state_id db).
Proof.
  revert db. induction olds as [|o olds IH]; intros db; simpl.
  - rewrite !filter_all by reflexivity. destruct db; reflexivity.
  - rewrite IH. simpl. rewrite !filter_filter. f_equal; apply filter_ext; intros x.
    + rewrite negb_orb. reflexivity.
    + rewrite negb_orb. reflexivity.
Qed.

Lemma fold_delete_agent_state olds db :
  fold_left delete_agent_state olds db =
  mkDB (chat_sessions db) (chat_messages db)
       (List.filter (fun s => negb (existsb (fun o => as_id s =? as_id o) olds))
                    (agent_states db))
       (next_session_id db) (next_agent_state_id db).
Proof.
  revert db. induction olds as [|o olds IH]; intros db; simpl.
  - rewrite filter_all by reflexivity. destruct db; reflexivity.
  - rewrite IH. simpl. rewrite filter_filter. f_equal. apply filter_ext; intros x.
    rewrite negb_orb. reflexivity.
Qed.

(** Among rows with distinct ids, "has the id of a selected row" is
    "is selected". *)
Lemma existsb_same_id {A} (id : A -> Z) (p : A -> bool) rows x :
  List.NoDup (List.map id rows) -> In x rows ->
  existsb (fun o => id x =? id o) (List.filter p rows) = p x.
Proof.
  intros Hnd Hin. destruct (p x) eqn:Hp.
  - apply existsb_exists. exists x. split; [apply filter_In; auto | apply Z.eqb_refl].
  - apply not_true_iff_false. intros Hex.
    apply existsb_exists in Hex as (o & Ho & Heq).
    apply filter_In in Ho as [Ho Hpo]. apply Z.eqb_eq in Heq.
    assert (x = o) by (eapply NoDup_map_eq; eauto). congruence.
Qed.

End DatabaseFacts.

Module DatabaseProperties.
Import Database DatabaseFacts.
Local Open Scope Z_scope.

Section AgentStateProperties.
Context {D : Type}.
Variable empty_dict : D.
Variable json_dumps : D -> string.
Variable json_loads : string -> option D.

(** X1.  Loading after saving returns what was saved, whether the row was
    inserted or updated, provided the dictionary survives a JSON round
    trip. *)
Theorem save_then_load (now : Z) (session_id agent_type : string) (state_data : D)
    (db : DB) :
  json_loads (json_dumps state_data) = Some state_data ->
  json_dumps state_data <> ""%string ->
  load_agent_state empty_dict json_loads session_id agent_type
    (save_agent_state json_dumps now session_id agent_type state_data db)
  = Some state_data.
Proof.
  intros Hround Hnonempty. apply String.eqb_neq in Hnonempty.
  unfold load_agent_state, save_agent_state.
  destruct (List.find (state_matches session_id agent_type) (agent_states db))
    as [row|] eqn:Hfind; simpl.
  - erewrite find_update_first_hit; [|auto|exact Hfind].
    simpl. rewrite Hnonempty. exact Hround.
  - rewrite (find_app_miss _ _ _ Hfind). unfold state_matches at 1. simpl.
    rewrite !String.eqb_refl. simpl. rewrite Hnonempty. exact Hround.
Qed.

(** X2.  Saving the state of one (session, agent) pair leaves what is loaded
    for every other pair as it was. *)
Theorem save_leaves_others (now : Z) (session_id agent_type : string) (state_data : D)
    (db : DB) (session_id' agent_type' : string) :
  (session_id', agent_type') <> (session_id, agent_type) ->
  load_agent_state empty_dict json_loads session_id' agent_type'
    (save_agent_state json_dumps now session_id agent_type state_data db)
  = load_agent_state empty_dict json_loads session_id' agent_type' db.
Proof.
  intros Hne. unfold load_agent_state, save_agent_state.
  destruct (List.find (state_matches session_id agent_type) (agent_states db))
    as [row|] eqn:Hfind; simpl.
  - rewrite find_update_first_other; trivial.
    intros r. apply state_matches_other, Hne.
  - destruct (List.find (state_matches session_id' agent_type') (agent_states db))
      as [row'|] eqn:Hfind'.
    + rewrite (find_app_hit _ _ _ _ Hfind'). reflexivity.
    + rewrite (find_app_miss _ _ _ Hfind').
      rewrite (state_matches_other session_id agent_type); trivial.
      apply state_matches_true. reflexivity.
Qed.

(** X3.  Saving keeps the constraints of the schema (one row per pair, distinct
    ids), changes no other table, and adds a row exactly when the pair had
    none. *)
Theorem save_keeps_constraints (now : Z) (session_id agent_type : string)
    (state_data : D) (db : DB) :
  well_formed db ->
  let db' := save_agent_state json_dumps now session_id agent_type state_data db in
  well_formed db' /\
  chat_sessions db' = chat_sessions db /\
  chat_messages db' = chat_messages db /\
  length (agent_states db') =
  (if existsb (state_matches session_id agent_type) (agent_states db)
   then length (agent_states db) else S (length (agent_states db))).
Proof.
  intros [Hsid Hskey Haid Hakey Hsseq Haseq]. unfold save_agent_state.
  destruct (List.find (state_matches session_id agent_type) (agent_states db))
    as [row|] eqn:Hfind; simpl.
  - split; [|split; [|split]]; trivial.
    + constructor; simpl; trivial.
      * rewrite map_update_first; trivial.
      * unfold state_keys. simpl. rewrite map_update_first; trivial.
      * clear -Haseq. induction (agent_states db) as [|r rest IH]; simpl; trivial.
        apply List.Forall_cons_iff in Haseq as [Hr Hrest].
        destruct (state_matches session_id agent_type r); constructor; auto.
    + replace (existsb _ _) with true.
      * clear. induction (agent_states db) as [|r rest IH]; simpl; trivial.
        destruct (state_matches session_id agent_type r); simpl; congruence.
      * symmetry. apply existsb_exists. apply find_some in Hfind. eauto.
  - assert (Hmiss : forall r, In r (agent_states db) ->
                              state_matches session_id agent_type r = false)
      by (apply find_none_forall, Hfind).
    split; [|split; [|split]]; trivial.
    + constructor; simpl; trivial.
      * rewrite map_app. simpl. apply NoDup_snoc; trivial.
        intros Hi. apply in_map_iff in Hi as (r & Hr & Hin).
        rewrite List.Forall_forall in Haseq. specialize (Haseq r Hin). simpl in Haseq. lia.
      * unfold state_keys. simpl. rewrite map_app. simpl. apply NoDup_snoc; trivial.
        intros Hk. apply in_map_iff in Hk as (r & Hr & Hin).
        specialize (Hmiss r Hin). apply not_true_iff_false in Hmiss. apply Hmiss.
        apply state_matches_true. exact Hr.
      * apply List.Forall_app. split.
        -- eapply List.Forall_impl; [|exact Haseq]. simpl. intros; lia.
        -- repeat constructor. simpl. lia.
    + rewrite length_app. simpl.
      replace (existsb _ _) with false; [lia|].
      symmetry. apply not_true_iff_false. intros Hex.
      apply existsb_exists in Hex as (r & Hin & Hr). rewrite (Hmiss r Hin) in Hr.
      discriminate.
Qed.
End AgentStateProperties.

(** A save into the empty database and one over an existing row. *)
Lemma save_then_load_witness :
  load_agent_state false toy_loads "s1" "calendar_agent"
    (save_agent_state toy_dumps 7 "s1" "calendar_agent" true
       (save_agent_state toy_dumps 5 "s1" "calendar_agent" false empty_db))
  = Some true.
Proof.
  apply (save_then_load false toy_dumps toy_loads 7 "s1" "calendar_agent" true
           (save_agent_state toy_dumps 5 "s1" "calendar_agent" false empty_db));
    [reflexivity | discriminate].
Defined.

Lemma save_leaves_others_witness :
  load_agent_state false toy_loads "s1" "search_agent"
    (save_agent_state toy_dumps 7 "s1" "calendar_agent" true
       (save_agent_state toy_dumps 5 "s1" "search_agent" true empty_db))
  = load_agent_state false toy_loads "s1" "search_agent"
      (save_agent_state toy_dumps 5 "s1" "search_agent" true empty_db).
Proof.
  apply (save_leaves_others false toy_dumps toy_loads 7 "s1" "calendar_agent" true
           (save_agent_state toy_dumps 5 "s1" "search_agent" true empty_db)
           "s1" "search_agent").
  discriminate.
Defined.

Lemma empty_db_well_formed : well_formed empty_db.
Proof. constructor; simpl; constructor. Qed.

Lemma save_keeps_constraints_witness :
  let db' := save_agent_state toy_dumps 5 "s1" "calendar_agent" true empty_db in
  well_formed db' /\
  chat_sessions db' = chat_sessions empty_db /\
  chat_messages db' = chat_messages empty_db /\
  length (agent_states db') = 1%nat.
Proof.
  apply (save_keeps_constraints toy_dumps 5 "s1" "calendar_agent" true empty_db).
  exact empty_db_well_formed.
Defined.

End DatabaseProperties.

Module RetentionProperties.
Import Database DatabaseFacts.
Local Open Scope Z_scope.

(** X4.  [get_or_create_session] never fails on the unique constraint; it
    returns a session with the requested id that is in the table
    afterwards, keeps every session that was there, and calling it again
    (at any later time) returns the same session and changes nothing; the
    constraints of the schema are kept. *)
Theorem get_or_create_session_idempotent (now now' : Z) (session_id : string) (db : DB) :
  exists session db',
    get_or_create_session now session_id db = inl (session, db') /\
    cs_session_id session = session_id /\
    In session (chat_sessions db') /\
    (forall s, In s (chat_sessions db) -> In s (chat_sessions db')) /\
    get_or_create_session now' session_id db' = inl (session, db') /\
    (well_formed db -> well_formed db').
Proof.
  unfold get_or_create_session.
  destruct (List.find (session_matches session_id) (chat_sessions db))
    as [session|] eqn:Hfind.
  - exists session, db. rewrite Hfind. apply find_some in Hfind as [Hin Hm].
    apply String.eqb_eq in Hm. auto 10.
  - pose proof (find_none_forall _ _ Hfind) as Hmiss.
    unfold create_session.
    replace (existsb (session_matches session_id) (chat_sessions db)) with false.
    2:{ symmetry. apply not_true_iff_false. intros Hex.
        apply existsb_exists in Hex as (r & Hin & Hr). rewrite (Hmiss r Hin) in Hr.
        discriminate. }
    eexists _, _. split; [reflexivity|]. simpl.
    split; [reflexivity|]. split; [apply in_or_app; simpl; auto|].
    split; [intros s Hs; apply in_or_app; auto|]. split.
    + rewrite (find_app_miss _ _ _ Hfind). unfold session_matches at 1. simpl.
      rewrite String.eqb_refl. reflexivity.
    + intros [Hsid Hskey Haid Hakey Hsseq Haseq].
      constructor; simpl; trivial.
      * rewrite map_app. simpl. apply NoDup_snoc; trivial.
        intros Hi. apply in_map_iff in Hi as (r & Hr & Hin).
        rewrite List.Forall_forall in Hsseq. specialize (Hsseq r Hin). simpl in Hsseq. lia.
      * unfold session_keys. simpl. rewrite map_app. simpl. apply NoDup_snoc; trivial.
        intros Hk. apply in_map_iff in Hk as (r & Hr & Hin).
        specialize (Hmiss r Hin). unfold session_matches in Hmiss.
        rewrite Hr, String.eqb_refl in Hmiss. discriminate.
      * apply List.Forall_app. split.
        -- eapply List.Forall_impl; [|exact Hsseq]. simpl. intros; lia.
        -- repeat constructor. simpl. lia.
Qed.

(** X5.  [cleanup_old_sessions] removes exactly the sessions created before the
    cutoff (a session without a creation time is kept), returns their
    number, removes the messages of the removed sessions and no others,
    leaves the agent states alone, and removes nothing when run again at
    the same time. *)
Theorem cleanup_old_sessions_effect (now days_old : Z) (db : DB) :
  well_formed db ->
  let cutoff_date := now - timedelta_days days_old in
  let removed := fst (cleanup_old_sessions now days_old db) in
  let db' := snd (cleanup_old_sessions now days_old db) in
  chat_sessions db' =
    List.filter (fun s => negb (older_than cutoff_date s)) (chat_sessions db) /\
  (Z.of_nat (length (chat_sessions db')) + removed
   = Z.of_nat (length (chat_sessions db))) /\
  (forall m, In m (chat_messages db') <->
     In m (chat_messages db) /\
     forall s, In s (chat_sessions db) -> older_than cutoff_date s = true ->
               cs_session_id s <> cm_session_id m) /\
  agent_states db' = agent_states db /\
  cleanup_old_sessions now days_old db' = (0, db').
Proof.
  intros Hwf. unfold cleanup_old_sessions. simpl.
  set (cutoff_date := now - timedelta_days days_old).
  rewrite fold_delete_session. simpl.
  assert (Hsessions :
    List.filter (fun s => negb (existsb (fun o => cs_id s =? cs_id o)
                                  (List.filter (older_than cutoff_date) (chat_sessions db))))
                (chat_sessions db)
    = List.filter (fun s => negb (older_than cutoff_date s)) (chat_sessions db)).
  { apply filter_ext_in. intros s Hs.
    rewrite existsb_same_id; trivial. apply Hwf. }
  rewrite Hsessions.
  split; [reflexivity|]. split.
  { pose proof (length_filter_split (older_than cutoff_date) (chat_sessions db)). lia. }
  split.
  { intros m. rewrite filter_In, negb_true_iff. split.
    - intros [Hm Hex]. split; trivial. intros s Hs Hold Heq.
      apply not_true_iff_false in Hex. apply Hex. apply existsb_exists.
      exists s. split; [apply filter_In; auto | apply String.eqb_eq; auto].
    - intros [Hm Hkeep]. split; trivial.
      apply not_true_iff_false. intros Hex.
      apply existsb_exists in Hex as (s & Hs & Heq).
      apply filter_In in Hs as [Hs Hold]. apply String.eqb_eq in Heq.
      apply (Hkeep s Hs Hold). auto. }
  split; [reflexivity|].
  rewrite filter_filter.
  rewrite (filter_none (fun x => negb (older_than cutoff_date x) && older_than cutoff_date x)).
  - simpl. reflexivity.
  - intros x _. destruct (older_than cutoff_date x); reflexivity.
Qed.

Lemma cleanup_orphaned_nothing db :
  (forall state, In state (agent_states db) -> orphaned db state = false) ->
  cleanup_orphaned_agent_states db = (0, db).
Proof.
  intros Hnone. unfold cleanup_orphaned_agent_states.
  rewrite (filter_none _ _ Hnone). destruct db; reflexivity.
Qed.

(** X6.  [cleanup_orphaned_agent_states] removes exactly the agent states whose
    session does not exist, returns their number, leaves sessions and
    messages alone; afterwards every agent state has its session, and a
    second run removes nothing. *)
Theorem cleanup_orphaned_agent_states_effect (db : DB) :
  well_formed db ->
  let removed := fst (cleanup_orphaned_agent_states db) in
  let db' := snd (cleanup_orphaned_agent_states db) in
  agent_states db' = List.filter (fun s => negb (orphaned db s)) (agent_states db) /\
  (Z.of_nat (length (agent_states db')) + removed
   = Z.of_nat (length (agent_states db))) /\
  chat_sessions db' = chat_sessions db /\
  chat_messages db' = chat_messages db /\
  (forall state, In state (agent_states db') ->
     exists session, In session (chat_sessions db') /\
                     cs_session_id session = as_session_id state) /\
  cleanup_orphaned_agent_states db' = (0, db').
Proof.
  intros Hwf. unfold cleanup_orphaned_agent_states. simpl.
  rewrite fold_delete_agent_state. simpl.
  assert (Hstates :
    List.filter (fun s => negb (existsb (fun o => as_id s =? as_id o)
                                  (List.filter (orphaned db) (agent_states db))))
                (agent_states db)
    = List.filter (fun s => negb (orphaned db s)) (agent_states db)).
  { apply filter_ext_in. intros s Hs.
    rewrite existsb_same_id; trivial. apply Hwf. }
  rewrite Hstates.
  split; [reflexivity|]. split.
  { pose proof (length_filter_split (orphaned db) (agent_states db)). lia. }
  split; [reflexivity|]. split; [reflexivity|]. split.
  { intros state Hin. apply filter_In in Hin as [_ Hhas].
    unfold orphaned in Hhas. rewrite negb_involutive in Hhas.
    apply existsb_exists in Hhas as (session & Hs & Hm).
    apply String.eqb_eq in Hm. eauto. }
  apply cleanup_orphaned_nothing. simpl. intros state Hin.
  apply filter_In in Hin as [_ Hhas]. apply negb_true_iff in Hhas. exact Hhas.
Qed.

End RetentionProperties.

Module RetentionExamples.
Import Database DatabaseFacts RetentionProperties.
Local Open Scope Z_scope.

Lemma sample_db_well_formed : well_formed sample_db.
Proof.
  constructor; simpl; repeat constructor; simpl; try lia;
    intuition (try discriminate; try lia).
Qed.

(** On day 41 with the default of 30 days, the first session goes. *)
Lemma cleanup_old_sessions_effect_witness :
  let cutoff_date := timedelta_days 41 - timedelta_days 30 in
  let removed := fst (cleanup_old_sessions (timedelta_days 41) 30 sample_db) in
  let db' := snd (cleanup_old_sessions (timedelta_days 41) 30 sample_db) in
  chat_sessions db' =
    List.filter (fun s => negb (older_than cutoff_date s)) (chat_sessions sample_db) /\
  (Z.of_nat (length (chat_sessions db')) + removed
   = Z.of_nat (length (chat_sessions sample_db))) /\
  (forall m, In m (chat_messages db') <->
     In m (chat_messages sample_db) /\
     forall s, In s (chat_sessions sample_db) -> older_than cutoff_date s = true ->
               cs_session_id s <> cm_session_id m) /\
  agent_states db' = agent_states sample_db /\
  cleanup_old_sessions (timedelta_days 41) 30 db' = (0, db').
Proof.
  exact (cleanup_old_sessions_effect (timedelta_days 41) 30 sample_db sample_db_well_formed).
Defined.

Lemma cleanup_orphaned_agent_states_effect_witness :
  let removed := fst (cleanup_orphaned_agent_states sample_db) in
  let db' := snd (cleanup_orphaned_agent_states sample_db) in
  agent_states db' =
    List.filter (fun s => negb (orphaned sample_db s)) (agent_states sample_db) /\
  (Z.of_nat (length (agent_states db')) + removed
   = Z.of_nat (length (agent_states sample_db))) /\
  chat_sessions db' = chat_sessions sample_db /\
  chat_messages db' = chat_messages sample_db /\
  (forall state, In state (agent_states db') ->
     exists session, In session (chat_sessions db') /\
                     cs_session_id session = as_session_id state) /\
  cleanup_orphaned_agent_states db' = (0, db').
Proof.
  exact (cleanup_orphaned_agent_states_effect sample_db sample_db_well_formed).
Defined.

(** Removing old sessions leaves their agent states behind; the orphan
    cleanup then removes them. *)
Example retention_pipeline :
  let after_sessions := snd (cleanup_old_sessions (timedelta_days 41) 30 sample_db) in
  List.map cs_session_id (chat_sessions after_sessions) = ["new"%string] /\
  List.map cm_id (chat_messages after_sessions) = [2] /\
  List.map as_id (agent_states after_sessions) = [1; 2] /\
  cleanup_orphaned_agent_states after_sessions
  = (2, mkDB (chat_sessions after_sessions) (chat_messages after_sessions) [] 3 3).
Proof. repeat split. Qed.

End RetentionExamples.

(** *** The calendar queries *)
Module CalendarProperties.
Import Calendar CalendarFacts Database.
Local Open Scope Z_scope.

Lemma find_conflicts_filter (events : list CalendarEvent) (s t : Z) :
  find_conflicts events s t = List.filter (fun e => conflicts_with e s t) events.
Proof.
  unfold find_conflicts. apply filter_ext. intros e. apply filter_pred_spec.
Qed.

(** X7.  The queries of [CalendarManager.find_conflicts] and of
    [CalendarAgent._check_conflicts] select exactly the events for which
    the method [conflicts_with] answers true, in table order. *)
Theorem conflict_queries_agree_with_method (events : list CalendarEvent) (s t : Z) :
  find_conflicts events s t = List.filter (fun e => conflicts_with e s t) events /\
  _check_conflicts events s t = List.filter (fun e => conflicts_with e s t) events.
Proof.
  split; [apply find_conflicts_filter|].
  unfold _check_conflicts. apply filter_ext. intros e. apply filter_pred_spec.
Qed.

(** X8.  An event conflicts with its own time range exactly when it ends after
    it starts: a stored event of zero or negative duration is never found
    by a conflict query for its own slot. *)
Theorem conflicts_with_own_range (e : CalendarEvent) (events : list CalendarEvent) :
  (conflicts_with e (start_time e) (end_time e) = true <-> start_time e < end_time e) /\
  (In e (find_conflicts events (start_time e) (end_time e)) <->
   In e events /\ start_time e < end_time e).
Proof.
  split.
  - rewrite conflicts_with_spec. lia.
  - rewrite find_conflicts_filter, filter_In, conflicts_with_spec.
    intuition lia.
Qed.

(** X9.  Widening the requested range never loses a conflict. *)
Theorem find_conflicts_monotone (events : list CalendarEvent) (s t s' t' : Z) :
  s' <= s -> t <= t' ->
  incl (find_conflicts events s t) (find_conflicts events s' t').
Proof.
  intros Hs Ht e. rewrite !find_conflicts_filter, !filter_In.
  rewrite !conflicts_with_spec. intuition lia.
Qed.

Lemma find_conflicts_monotone_witness :
  incl (find_conflicts [ev_3_8] 4 5) (find_conflicts [ev_3_8] 0 10).
Proof.
  apply (find_conflicts_monotone [ev_3_8] 4 5 0 10); lia.
Defined.

End CalendarProperties.

(** *** Metrics *)
Module MetricsProperties.
Import Metrics.
Local Open Scope Z_scope.

Lemma record_one agent_type response_time success self a :
  let self' := record_agent_performance agent_type response_time success self in
  let hit := String.eqb agent_type a in
  count_of (task_counts self') a
    = count_of (task_counts self) a + (if hit then 1 else 0) /\
  count_of (success_rates self') a
    = count_of (success_rates self) a + (if hit && success then 1 else 0) /\
  count_of (error_counts self') a
    = count_of (error_counts self) a + (if hit && negb success then 1 else 0) /\
  times_of (response_times self') a
    = times_of (response_times self) a ++ (if hit then [response_time] else []).
Proof.
  unfold record_agent_performance, count_of, times_of.
  destruct (String.eqb_spec agent_type a) as [->|Hne]; destruct success; simpl;
    rewrite ?lookup_insert_eq, ?lookup_insert_ne by exact Hne; simpl;
    rewrite ?app_nil_r; repeat split; lia.
Qed.

(** X10.  After any sequence of recordings, for every agent type: the task
    count is the number of its recordings, the success and error counts
    are the numbers of its successful and failed ones, the response times
    are its recorded times in order; so tasks = successes + errors =
    number of response times. *)
Theorem metrics_account_for_every_record (records : list (string * Q * bool))
    (agent_type : string) :
  let m := record_all records new_metrics in
  let mine := for_agent agent_type records in
  count_of (task_counts m) agent_type = Z.of_nat (length mine) /\
  count_of (success_rates m) agent_type
    = Z.of_nat (length (List.filter (fun r => snd r) mine)) /\
  count_of (error_counts m) agent_type
    = Z.of_nat (length (List.filter (fun r => negb (snd r)) mine)) /\
  times_of (response_times m) agent_type = List.map (fun r => snd (fst r)) mine /\
  count_of (task_counts m) agent_type
    = count_of (success_rates m) agent_type + count_of (error_counts m) agent_type /\
  count_of (task_counts m) agent_type
    = Z.of_nat (length (times_of (response_times m) agent_type)).
Proof.
  cut (forall m0,
    let m := record_all records m0 in
    let mine := for_agent agent_type records in
    count_of (task_counts m) agent_type
      = count_of (task_counts m0) agent_type + Z.of_nat (length mine) /\
    count_of (success_rates m) agent_type
      = count_of (success_rates m0) agent_type
        + Z.of_nat (length (List.filter (fun r => snd r) mine)) /\
    count_of (error_counts m) agent_type
      = count_of (error_counts m0) agent_type
        + Z.of_nat (length (List.filter (fun r => negb (snd r)) mine)) /\
    times_of (response_times m) agent_type
      = times_of (response_times m0) agent_type ++ List.map (fun r => snd (fst r)) mine).
  { intros Hgen. destruct (Hgen new_metrics) as (Ht & Hs & He & Hr). simpl in *.
    rewrite Ht, Hs, He, Hr. unfold count_of, times_of. rewrite !lookup_empty. simpl.
    rewrite length_map.
    pose proof (DatabaseFacts.length_filter_split (fun r : string * Q * bool => snd r)
                  (for_agent agent_type records)).
    repeat split; lia. }
  induction records as [|[[a t] ok] rest IH]; intros m0; simpl.
  - rewrite app_nil_r. repeat split; lia.
  - destruct (IH (record_agent_performance a t ok m0)) as (Ht & Hs & He & Hr).
    destruct (record_one a t ok m0 agent_type) as (Ht1 & Hs1 & He1 & Hr1).
    unfold record_all in *. simpl in *.
    rewrite Ht, Hs, He, Hr, Ht1, Hs1, He1, Hr1.
    unfold for_agent. simpl.
    destruct (String.eqb a agent_type); simpl.
    + destruct ok; simpl; rewrite <- ?app_assoc; simpl; repeat split; lia.
    + rewrite app_nil_r. repeat split; lia.
Qed.

End MetricsProperties.

(** *** Health checks *)
Module HealthProperties.
Import Workflow WorkflowFacts Health.

Lemma run_checks_spec {B} (checks : list (string * (B -> CheckOutcome * B)))
    results status system overall results' system' :
  run_checks checks results status system = (Some (overall, results'), system') ->
  (overall = unhealthy <->
   status = unhealthy \/ exists name, existsb (fun o => String.eqb (fst o) name && is_error (snd o))
                                        (outcomes checks system) = true) /\
  (forall name, is_Some (dict_get name results) \/ In name (List.map fst checks) ->
                is_Some (dict_get name results')).
Proof.
  revert results status system.
  induction checks as [|[name check_function] rest IH]; intros results status system; simpl.
  - intros [= <- <- <-]. split.
    + split; [auto | intros [H | [? H]]; [exact H | discriminate]].
    + intros n [H | []]. exact H.
  - destruct (check_function system) as [[details|message|] system1] eqn:Hcheck;
      [| |discriminate]; intros Hrun; apply IH in Hrun as [Hstatus Hnames]; split.
    + rewrite Hstatus. simpl. split.
      * intros [H | [n H]]; [auto | right; exists n].
        rewrite andb_false_r. exact H.
      * intros [H | [n H]]; [auto | right; exists n].
        rewrite andb_false_r in H. exact H.
    + intros n [H | [<- | H]]; apply Hnames; auto.
      * left. apply dict_get_set_is_Some, H.
      * left. rewrite dict_get_set_eq. eauto.
    + split; [intros _|intros _; apply Hstatus; auto].
      right. exists name. simpl. rewrite String.eqb_refl. reflexivity.
    + intros n [H | [<- | H]]; apply Hnames; auto.
      * left. apply dict_get_set_is_Some, H.
      * left. rewrite dict_get_set_eq. eauto.
Qed.

(** X11.  When [run_health_checks] returns, the overall status is unhealthy
    exactly when some check raised, and every registered name has an
    entry in the results. *)
Theorem overall_status_reflects_checks {B} (checks : list (string * (B -> CheckOutcome * B)))
    (system system' : B) (overall : Status) (results : dict CheckResult) :
  run_health_checks checks system = (Some (overall, results), system') ->
  (overall = unhealthy <->
   exists name message, In (name, Error message) (outcomes checks system)) /\
  (forall name, In name (List.map fst checks) -> is_Some (dict_get name results)).
Proof.
  intros Hrun. apply run_checks_spec in Hrun as [Hstatus Hnames]. split.
  - rewrite Hstatus. split.
    + intros [H | [n H]]; [discriminate|].
      apply existsb_exists in H as ([name o] & Hin & Ho). simpl in Ho.
      apply andb_true_iff in Ho as [_ Ho]. destruct o; try discriminate. eauto.
    + intros (name & message & Hin). right. exists name.
      apply existsb_exists. exists (name, Error message). split; trivial.
      simpl. rewrite String.eqb_refl. reflexivity.
  - intros name Hin. apply Hnames. auto.
Qed.

Lemma overall_status_reflects_checks_witness :
  (unhealthy = unhealthy <->
   exists name message, In (name, Error message) (outcomes sample_checks tt)) /\
  (forall name, In name (List.map fst sample_checks) ->
     is_Some (dict_get name [("database"%string, Healthy "ok");
                             ("bedrock"%string, Unhealthy "timed out")])).
Proof.
  apply (overall_status_reflects_checks sample_checks tt tt unhealthy
           [("database"%string, Healthy "ok"); ("bedrock"%string, Unhealthy "timed out")]).
  reflexivity.
Defined.

End HealthProperties.

(** *** More on the breaker and on retries *)
Module ResilienceProperties.
Import Breaker BreakerFacts Retry RetryFacts Resilience.
Local Open Scope Z_scope.

Lemma failures_cons {V E} (c : Z * Breaker.Outcome V E) history :
  failures (c :: history) =
  (match snd c with Raised _ _ => 1 | _ => 0 end) + failures history.
Proof.
  unfold failures. simpl. destruct (snd c); simpl; lia.
Qed.

Lemma closed_accumulates {V E} (history : list (Z * Breaker.Outcome V E)) cb :
  state cb = CLOSED ->
  failure_count cb + failures history < failure_threshold cb ->
  state (calls history cb) = CLOSED /\
  failure_count (calls history cb) = failure_count cb + failures history.
Proof.
  revert cb. induction history as [|[now o] rest IH]; intros cb Hclosed Hbelow.
  - unfold failures. simpl. split; [exact Hclosed | lia].
  - rewrite failures_cons in Hbelow |- *. simpl snd in *.
    assert (0 <= failures rest) by (unfold failures; lia).
    change (calls ((now, o) :: rest) cb) with (calls rest (call_with cb (now, o))).
    rewrite call_with_unfold. unfold gate. rewrite Hclosed.
    destruct o as [v|e at_time|]; simpl.
    + unfold on_success. rewrite Hclosed. destruct (IH cb Hclosed) as [-> ->]; [lia|].
      split; [reflexivity | lia].
    + assert (Hge : (failure_count cb + 1 >=? failure_threshold cb) = false).
      { apply not_true_iff_false. rewrite Z.geb_le. lia. }
      destruct (IH (on_failure at_time cb)) as [-> ->].
      * unfold on_failure. simpl. rewrite Hge. exact Hclosed.
      * unfold on_failure. simpl. lia.
      * unfold on_failure. simpl. split; [reflexivity | lia].
    + destruct (IH cb Hclosed) as [-> ->]; [lia|]. split; [reflexivity | lia].
Qed.

(** X12.  Successful calls never reset the failure count of a CLOSED breaker:
    as long as fewer than [threshold] calls have failed since it was
    created, the breaker is CLOSED and its count is the number of failed
    calls, however many successful calls lie between them. *)
Theorem failures_accumulate_across_successes (V E : Type) (threshold timeout : Z)
    (history : list (Z * Breaker.Outcome V E)) :
  failures history < threshold ->
  state (calls history (init threshold timeout)) = CLOSED /\
  failure_count (calls history (init threshold timeout)) = failures history.
Proof.
  intros Hbelow.
  destruct (closed_accumulates history (init threshold timeout)) as [Hs Hc].
  - reflexivity.
  - simpl. lia.
  - split; [exact Hs | rewrite Hc; simpl; lia].
Qed.

(** Four failures spread among successes, with the default threshold 5. *)
Lemma failures_accumulate_across_successes_witness :
  let ok t : Z * Breaker.Outcome unit unit := (t, Returned tt) in
  let ko t : Z * Breaker.Outcome unit unit := (t, Raised tt t) in
  let history := [ko 1; ok 2; ko 3; ok 4; ok 5; ko 6; ko 7; ok 8] in
  state (calls history (init 5 60)) = CLOSED /\
  failure_count (calls history (init 5 60)) = failures history.
Proof.
  intros ok ko history.
  apply (failures_accumulate_across_successes unit unit 5 60 history).
  reflexivity.
Defined.

(** X13.  With [max_retries] zero or negative the loop body never runs: the
    operation is not invoked, nothing is slept, and the call returns
    [None]. *)
Theorem with_retry_without_attempts (B V E X : Type)
    (operation : B -> Retry.Outcome V E X * B) (max_retries : Z) (backend : B) :
  max_retries <= 0 ->
  with_retry operation max_retries backend = (ReturnNone, [], backend).
Proof.
  intros Hle. unfold with_retry, range.
  replace (Z.to_nat max_retries) with 0%nat by lia. reflexivity.
Qed.

Lemma with_retry_without_attempts_witness :
  with_retry flaky 0 3%nat = (ReturnNone, [], 3%nat).
Proof.
  apply (with_retry_without_attempts nat string string Empty_set flaky 0 3%nat). lia.
Defined.

Lemma loop_cons_raises {B V E X} (operation : B -> Retry.Outcome V E X * B)
    max_retries attempt rest backend e backend' :
  operation backend = (Raises e, backend') ->
  attempt <> max_retries - 1 ->
  loop operation max_retries (attempt :: rest) backend =
  (let '(r, trace, backend'') := loop operation max_retries rest backend' in
   (r, Invoke :: Sleep (2 ^ attempt) :: trace, backend'')).
Proof.
  intros Hop Hne. simpl. rewrite Hop.
  apply Z.eqb_neq in Hne. rewrite Hne. reflexivity.
Qed.

Lemma loop_exhausted {B V E X} (operation : B -> Retry.Outcome V E X * B) :
  (forall b, exists e, fst (operation b) = Raises e) ->
  forall (k i : nat) (backend : B),
    exists e trace backend',
      loop operation (Z.of_nat (i + S k)) (List.map Z.of_nat (seq i (S k))) backend
      = (Raise e, trace, backend') /\
      invocations trace = S k /\
      total_sleep trace = 2 ^ Z.of_nat (i + k) - 2 ^ Z.of_nat i.
Proof.
  intros Hfail. induction k as [|k IH]; intros i backend.
  - simpl. destruct (Hfail backend) as [e He].
    destruct (operation backend) as [o backend'] eqn:Hop. simpl in He. subst o.
    replace (Z.of_nat i =? Z.of_nat (i + 1) - 1) with true
      by (symmetry; apply Z.eqb_eq; lia).
    exists e, [Invoke], backend'. rewrite Nat.add_0_r.
    split; [reflexivity|]. split; [reflexivity|]. simpl. lia.
  - destruct (Hfail backend) as [e He].
    destruct (operation backend) as [o backend1] eqn:Hop. simpl in He. subst o.
    destruct (IH (S i) backend1) as (e' & trace & backend' & Hloop & Hinv & Hsleep).
    exists e', (Invoke :: Sleep (2 ^ Z.of_nat i) :: trace), backend'.
    split; [|split].
    + change (seq i (S (S k))) with (i :: seq (S i) (S k)). rewrite map_cons.
      rewrite (loop_cons_raises operation _ _ _ _ _ _ Hop) by lia.
      replace (i + S (S k))%nat with (S i + S k)%nat by lia.
      rewrite Hloop. reflexivity.
    + unfold invocations in *. simpl. lia.
    + simpl. rewrite Hsleep.
      replace (Z.of_nat (S i + k)) with (Z.of_nat i + Z.of_nat k + 1) by lia.
      replace (Z.of_nat (i + S k)) with (Z.of_nat i + Z.of_nat k + 1) by lia.
      replace (Z.of_nat (S i)) with (Z.of_nat i + 1) by lia.
      rewrite !Z.pow_add_r by lia. lia.
Qed.

(** X14.  When every invocation raises, [with_retry] with [max_retries = n >= 1]
    invokes the operation exactly [n] times, sleeps [2 ^ (n - 1) - 1]
    seconds in all, and then raises. *)
Theorem with_retry_exhausted (B V E X : Type)
    (operation : B -> Retry.Outcome V E X * B) (n : nat) (backend : B) :
  (forall b, exists e, fst (operation b) = Raises e) ->
  (1 <= n)%nat ->
  exists e trace backend',
    with_retry operation (Z.of_nat n) backend = (Raise e, trace, backend') /\
    invocations trace = n /\
    total_sleep trace = 2 ^ (Z.of_nat n - 1) - 1.
Proof.
  intros Hfail Hn. destruct n as [|k]; [lia|].
  destruct (loop_exhausted operation Hfail k 0%nat backend)
    as (e & trace & backend' & Hloop & Hinv & Hsleep).
  exists e, trace, backend'. unfold with_retry, range.
  rewrite Nat2Z.id. simpl plus in Hloop. rewrite Hloop.
  split; [reflexivity|]. split; [exact Hinv|].
  rewrite Hsleep. simpl plus. replace (Z.of_nat (S k) - 1) with (Z.of_nat k) by lia.
  reflexivity.
Qed.

(** Five attempts against a backend that always times out: 15 seconds. *)
Lemma with_retry_exhausted_witness :
  exists e trace backend',
    with_retry always_timeout (Z.of_nat 5) 0%nat = (Raise e, trace, backend') /\
    invocations trace = 5%nat /\
    total_sleep trace = 2 ^ (Z.of_nat 5 - 1) - 1.
Proof.
  apply (with_retry_exhausted nat string string Empty_set always_timeout 5 0%nat).
  - intros b. exists "timeout"%string. reflexivity.
  - lia.
Defined.

End ResilienceProperties.

(** *** Guardrails *)
Module GuardrailFacts.
Import Guardrails.
Local Open Scope Z_scope.

Lemma starts_with_app b a post :
  starts_with b a = true -> starts_with b (a ++ post) = true.
Proof.
  revert a. induction b as [|x b IH]; intros [|y a]; simpl; trivial; try discriminate.
  intros H. apply andb_true_iff in H as [-> H]. simpl. auto.
Qed.

Lemma contains_cons b y a :
  contains b (y :: a) = starts_with b (y :: a) || contains b a.
Proof. reflexivity. Qed.

Lemma contains_app_r b a post :
  contains b a = true -> contains b (a ++ post) = true.
Proof.
  induction a as [|y a IH].
  - simpl. rewrite orb_false_r. intros H. destruct b; [|discriminate].
    destruct post; reflexivity.
  - rewrite <- app_comm_cons, !contains_cons. intros H.
    apply orb_true_iff in H as [H | H].
    + rewrite app_comm_cons, (starts_with_app b (y :: a) post H). reflexivity.
    + rewrite (IH H). apply orb_true_r.
Qed.

Lemma contains_app_l b pre a :
  contains b a = true -> contains b (pre ++ a) = true.
Proof.
  intros H. induction pre as [|y pre IH]; trivial.
  rewrite <- app_comm_cons, contains_cons, IH. apply orb_true_r.
Qed.

Lemma In_firstn {A} (n : nat) (l : list A) x : In x (firstn n l) -> In x l.
Proof.
  revert n. induction l as [|a l IH]; intros [|n]; simpl; try tauto.
  intros [-> | H]; eauto.
Qed.

Lemma in_window_sublist now seconds (l1 l2 : list Z) :
  sublist l1 l2 -> in_window now seconds l1 <= in_window now seconds l2.
Proof.
  unfold in_window. induction 1 as [|x l1 l2 _ IH|x l1 l2 _ IH]; simpl.
  - lia.
  - destruct (within now seconds x); simpl; lia.
  - destruct (within now seconds x); simpl; lia.
Qed.

(** A later window holds no more of the same log. *)
Lemma in_window_later now now' seconds (log : list Z) :
  now <= now' -> in_window now' seconds log <= in_window now seconds log.
Proof.
  intros Hle. unfold in_window, within. induction log as [|t log IH]; simpl; [lia|].
  destruct (now' - t <? seconds) eqn:H1; destruct (now - t <? seconds) eqn:H2;
    simpl; lia.
Qed.

Lemma in_window_snoc now seconds (log : list Z) t :
  in_window now seconds (log ++ [t]) =
  in_window now seconds log + (if within now seconds t then 1 else 0).
Proof.
  unfold in_window. rewrite List.filter_app, length_app. simpl.
  destruct (within now seconds t); simpl; lia.
Qed.

Lemma minute_of_hour now (log : list Z) :
  List.filter (within now 60) (List.filter (within now 3600) log)
  = List.filter (within now 60) log.
Proof.
  rewrite DatabaseFacts.filter_filter. apply filter_ext. intros t. unfold within.
  destruct (now - t <? 60) eqn:H60; [|apply andb_false_r].
  apply Z.ltb_lt in H60. rewrite andb_true_r. apply Z.ltb_lt. lia.
Qed.

End GuardrailFacts.

Module RateLimitProperties.
Import Guardrails GuardrailFacts.
Local Open Scope Z_scope.

Section Limits.
Variable cleanup : Z -> gmap string (list Z) -> gmap string (list Z).
(** The cleanup only removes entries. *)
Hypothesis cleanup_removes :
  forall t counts session_id,
    sublist (default [] (cleanup t counts !! session_id)) (default [] (counts !! session_id)).

Lemma cleaned_within now now' self session_id :
  within_limits now self -> now <= now' ->
  in_window now' 60 (default [] (cleanup now' (request_counts self) !! session_id)) <= 60 /\
  in_window now' 3600 (default [] (cleanup now' (request_counts self) !! session_id)) <= 1000.
Proof.
  intros (_ & _ & Hlim) Hle. destruct (Hlim session_id) as [Hm Hh].
  pose proof (cleanup_removes now' (request_counts self) session_id) as Hsub.
  pose proof (in_window_sublist now' 60 _ _ Hsub).
  pose proof (in_window_sublist now' 3600 _ _ Hsub).
  pose proof (in_window_later now now' 60 (log_of self session_id) Hle).
  pose proof (in_window_later now now' 3600 (log_of self session_id) Hle).
  unfold log_of in *. lia.
Qed.

Lemma check_rate_limit_within now now' session_id self :
  within_limits now self -> now <= now' ->
  within_limits now' (snd (check_rate_limit cleanup now' session_id self)).
Proof.
  intros Hinv Hle. pose proof Hinv as (Hmin & Hhour & _).
  unfold check_rate_limit.
  set (cleaned := cleanup now' (request_counts self)).
  set (counts := match cleaned !! session_id with
                 | Some _ => cleaned
                 | None => <[session_id := []]> cleaned
                 end).
  assert (Hcounts : forall s, default [] (counts !! s) = default [] (cleaned !! s)).
  { intros s. subst counts. destruct (cleaned !! session_id) eqn:Hc; trivial.
    destruct (decide (session_id = s)) as [<-|Hne].
    - rewrite lookup_insert_eq, Hc. reflexivity.
    - rewrite lookup_insert_ne by exact Hne. reflexivity. }
  set (log := default [] (counts !! session_id)).
  assert (Hrefused : within_limits now' (mkRateLimiter counts 60 1000)).
  { split; [reflexivity|]. split; [reflexivity|]. intros s. unfold log_of. simpl.
    rewrite Hcounts. apply (cleaned_within now now' self s Hinv Hle). }
  rewrite Hhour, Hmin.
  destruct (Z.of_nat (length (List.filter (within now' 3600) log)) >=? 1000) eqn:Hh;
    [exact Hrefused|].
  rewrite minute_of_hour.
  destruct (Z.of_nat (length (List.filter (within now' 60) log)) >=? 60) eqn:Hm;
    [exact Hrefused|].
  split; [reflexivity|]. split; [reflexivity|]. intros s. unfold log_of. simpl.
  destruct (decide (session_id = s)) as [<-|Hne].
  - rewrite lookup_insert_eq. simpl. rewrite !in_window_snoc.
    replace (within now' 60 now') with true
      by (unfold within; rewrite Z.sub_diag; reflexivity).
    replace (within now' 3600 now') with true
      by (unfold within; rewrite Z.sub_diag; reflexivity).
    apply not_true_iff_false in Hh, Hm. rewrite Z.geb_le in Hh, Hm.
    unfold in_window. fold log. lia.
  - rewrite lookup_insert_ne by exact Hne. rewrite Hcounts.
    apply (cleaned_within now now' self s Hinv Hle).
Qed.

Lemma check_all_within requests : forall t0 self,
  within_limits t0 self -> clock_ok t0 requests ->
  within_limits (last_time t0 requests) (check_all cleanup requests self).
Proof.
  induction requests as [|[t session_id] rest IH]; intros t0 self Hinv Hclock; simpl.
  - exact Hinv.
  - destruct Hclock as [Hle Hclock]. apply IH; trivial.
    apply (check_rate_limit_within t0 t session_id self Hinv Hle).
Qed.

(** X15.  With a clock that never goes back and a cleanup that only removes
    entries, after any sequence of requests to a new limiter the log of
    every session holds at most 60 requests of the last minute and at most
    1000 of the last hour, counted at the time of the last request. *)
Theorem rate_limits_hold (t0 : Z) (requests : list (Z * string)) (session_id : string) :
  clock_ok t0 requests ->
  let self := check_all cleanup requests new_RateLimiter in
  let now := last_time t0 requests in
  in_window now 60 (log_of self session_id) <= 60 /\
  in_window now 3600 (log_of self session_id) <= 1000.
Proof.
  intros Hclock. simpl.
  assert (Hnew : within_limits t0 new_RateLimiter).
  { split; [reflexivity|]. split; [reflexivity|]. intros s.
    unfold log_of, in_window. simpl. rewrite lookup_empty. simpl. lia. }
  destruct (check_all_within requests t0 new_RateLimiter Hnew Hclock) as (_ & _ & Hlim).
  apply Hlim.
Qed.
End Limits.

(** Sixty-two requests of one session in the same second, with a cleanup
    that removes nothing: the log stops at sixty. *)
Lemma rate_limits_hold_witness :
  let requests := repeat (5, "s1"%string) 62 in
  let self := check_all (fun _ counts => counts) requests new_RateLimiter in
  let now := last_time 0 requests in
  in_window now 60 (log_of self "s1") <= 60 /\
  in_window now 3600 (log_of self "s1") <= 1000.
Proof.
  apply (rate_limits_hold (fun _ counts => counts) ltac:(intros; reflexivity)
           0 (repeat (5, "s1"%string) 62) "s1").
  simpl. repeat split; lia.
Defined.

End RateLimitProperties.

Module IntrusionProperties.
Import Guardrails GuardrailFacts.
Local Open Scope Z_scope.

Section Detector.
Variable detect : Request -> bool.

Lemma attacks_snoc requests r ip :
  attacks detect (requests ++ [r]) ip =
  attacks detect requests ip
  + (if String.eqb (remote_addr r) ip && detect r then 1 else 0).
Proof.
  unfold attacks. rewrite List.filter_app, length_app. simpl.
  destruct (String.eqb (remote_addr r) ip && detect r); simpl; lia.
Qed.

Lemma attacks_nonneg requests ip : 0 <= attacks detect requests ip.
Proof. unfold attacks. lia. Qed.

Lemma attempts_bump ip v fa b th d :
  attempts_of (mkIDS (<[ip := v]> fa) b th d) ip = v.
Proof. unfold attempts_of. simpl. rewrite lookup_insert_eq. reflexivity. Qed.

Lemma check_request_accounted requests r self :
  accounted detect requests self ->
  accounted detect (requests ++ [r]) (snd (check_request detect r self)) /\
  fst (check_request detect r self)
  = negb (5 <=? attacks detect (requests ++ [r]) (remote_addr r)).
Proof.
  intros [Hth Hacc]. unfold check_request.
  pose proof (attacks_nonneg requests) as Hnn.
  destruct (Hacc (remote_addr r)) as [Hmine Hblocked].
  case_bool_decide as Hin.
  - (* already blocked *)
    apply Hblocked in Hin. simpl. split.
    + split; [solve [exact Hth | reflexivity]|]. intros ip. rewrite attacks_snoc.
      destruct (Hacc ip) as [Ha Hb]. rewrite Ha, Hb.
      destruct (String.eqb_spec (remote_addr r) ip) as [<-|Hne]; simpl;
        [destruct (detect r)|]; split; lia.
    + rewrite attacks_snoc, String.eqb_refl. simpl.
      symmetry. apply negb_false_iff, Z.leb_le. destruct (detect r); lia.
  - assert (Hbelow : attacks detect requests (remote_addr r) < 5)
      by (apply Z.nle_gt; intros H; apply Hin, Hblocked, H).
    destruct (detect r) eqn:Hdetect.
    + cbv zeta. rewrite !attempts_bump. cbn [alert_threshold]. rewrite Hth, Hmine.
      destruct (Z.min 5 (attacks detect requests (remote_addr r)) + 1 >=? 5) eqn:Hge; simpl.
      * apply Z.geb_le in Hge. split.
        -- split; [solve [exact Hth | reflexivity]|]. intros ip. rewrite attacks_snoc. unfold attempts_of. simpl.
           destruct (Hacc ip) as [Ha Hb].
           destruct (String.eqb_spec (remote_addr r) ip) as [<-|Hne]; simpl.
           ++ rewrite lookup_insert_eq, Hdetect. simpl. split; [lia|].
              split; [lia | intros _; apply elem_of_union_l, elem_of_singleton; reflexivity].
           ++ rewrite lookup_insert_ne by exact Hne. fold (attempts_of self ip).
              rewrite Z.add_0_r. split; [exact Ha|].
              rewrite <- Hb, elem_of_union, elem_of_singleton.
              split; [intros [Heq | H]; [congruence | exact H] | auto].
        -- rewrite attacks_snoc, String.eqb_refl, Hdetect. simpl.
           symmetry. apply negb_false_iff, Z.leb_le. lia.
      * apply not_true_iff_false in Hge. rewrite Z.geb_le in Hge. split.
        -- split; [solve [exact Hth | reflexivity]|]. intros ip. rewrite attacks_snoc. unfold attempts_of. simpl.
           destruct (Hacc ip) as [Ha Hb].
           destruct (String.eqb_spec (remote_addr r) ip) as [<-|Hne]; simpl.
           ++ rewrite lookup_insert_eq, Hdetect. simpl. split; [lia|].
              rewrite Hb. lia.
           ++ rewrite lookup_insert_ne by exact Hne. fold (attempts_of self ip).
              rewrite Z.add_0_r. split; [exact Ha | exact Hb].
        -- rewrite attacks_snoc, String.eqb_refl, Hdetect. simpl.
           symmetry. apply negb_true_iff, Z.leb_gt. lia.
    + simpl. split.
      * split; [solve [exact Hth | reflexivity]|]. intros ip. rewrite attacks_snoc.
        destruct (Hacc ip) as [Ha Hb]. rewrite Ha, Hb.
        destruct (String.eqb_spec (remote_addr r) ip) as [<-|Hne]; simpl;
          rewrite ?Hdetect; simpl; split; lia.
      * rewrite attacks_snoc, String.eqb_refl, Hdetect. simpl.
        symmetry. apply negb_true_iff, Z.leb_gt. lia.
Qed.

Lemma check_requests_accounted requests :
  accounted detect requests (check_requests detect requests new_IDS).
Proof.
  induction requests as [|r requests IH] using rev_ind.
  - split; [reflexivity|]. intros ip. unfold attempts_of, attacks. simpl.
    rewrite lookup_empty. simpl. split; [reflexivity|].
    split; [intros H; apply elem_of_empty in H; destruct H | lia].
  - unfold check_requests. rewrite fold_left_app. simpl.
    apply (check_request_accounted requests r _ IH).
Qed.

(** X16.  After any history of requests to a new detection system: the failed
    attempts recorded for an address are the number of its requests that
    matched an attack pattern, capped at 5, and the address is blocked
    exactly when at least 5 of its requests matched. *)
Theorem blocked_after_five_attacks (requests : list Request) (ip : string) :
  let self := check_requests detect requests new_IDS in
  attempts_of self ip = Z.min 5 (attacks detect requests ip) /\
  (ip ∈ blocked_ips self <-> 5 <= attacks detect requests ip).
Proof.
  destruct (check_requests_accounted requests) as [_ Hacc]. apply Hacc.
Qed.

(** X17.  A request is refused exactly when, counting it, at least 5 requests
    from its address have matched an attack pattern: the first four
    matching requests of an address are let through, and once an address
    is blocked every later request from it is refused, matching or not. *)
Theorem refused_from_fifth_attack (requests : list Request) (r : Request) :
  fst (check_request detect r (check_requests detect requests new_IDS))
  = negb (5 <=? attacks detect (requests ++ [r]) (remote_addr r)).
Proof.
  apply (check_request_accounted requests r _ (check_requests_accounted requests)).
Qed.
End Detector.

(** Four probes pass, the fifth is refused and blocks the address, and a
    harmless request from it is then refused too. *)
Example five_probes :
  List.map (fun n => fst (check_request probe_detector probe
                            (check_requests probe_detector (repeat probe n) new_IDS)))
           [0; 1; 2; 3; 4; 5]%nat
  = [true; true; true; true; false; false] /\
  fst (check_request probe_detector (mkRequest "10.0.0.9" "/")
         (check_requests probe_detector (repeat probe 5) new_IDS)) = false.
Proof. split; vm_compute; reflexivity. Qed.

End IntrusionProperties.

Module SanitizerProperties.
Import Guardrails GuardrailFacts.
Local Open Scope Z_scope.

Lemma existsb_contains_mono (patterns : list pystr) code pre post :
  existsb (fun dangerous => contains dangerous code) patterns = true ->
  existsb (fun dangerous => contains dangerous (pre ++ code ++ post)) patterns = true.
Proof.
  rewrite !existsb_exists. intros (d & Hin & Hd). exists d. split; trivial.
  apply contains_app_l, contains_app_r, Hd.
Qed.

(** X18.  A rejection by [_validate_python_code] is final: code that is rejected
    stays rejected whatever is written before or after it (the check looks
    for the listed names anywhere in the text, also inside longer words). *)
Theorem rejected_code_stays_rejected (code pre post : pystr) :
  _validate_python_code code = false ->
  _validate_python_code (pre ++ code ++ post) = false.
Proof.
  unfold _validate_python_code. rewrite !negb_false_iff.
  apply existsb_contains_mono.
Qed.

(** The word "position" contains "os". *)
Lemma rejected_code_stays_rejected_witness :
  _validate_python_code (py "x = " ++ py "position" ++ py " + 1") = false.
Proof.
  apply (rejected_code_stays_rejected (py "position") (py "x = ") (py " + 1")).
  reflexivity.
Defined.

(** X19.  [validate_session] reads only the seconds field of the idle time: a
    session idle for any whole number of days plus at most an hour (and
    less than a second) is accepted and its last activity refreshed. *)
Theorem validate_session_ignores_days (session : gmap string SessionValue)
    (last_activity days rest now_refresh : Z) :
  is_Some (session !! "session_id"%string) ->
  session !! "last_activity"%string = Some (STime last_activity) ->
  0 <= rest < 3601000000 ->
  validate_session (last_activity + Database.timedelta_days days + rest) now_refresh session
  = (Valid, <["last_activity"%string := STime now_refresh]> session).
Proof.
  intros [sid Hsid] Hlast Hrest. unfold validate_session. rewrite Hsid, Hlast.
  replace (timedelta_seconds (last_activity + Database.timedelta_days days + rest
                              - last_activity) >? session_timeout) with false;
    [reflexivity|].
  symmetry. rewrite Z.gtb_ltb. apply Z.ltb_ge.
  unfold timedelta_seconds, Database.timedelta_days, session_timeout.
  replace (last_activity + days * 86400000000 + rest - last_activity)
    with (rest + days * 86400000000) by lia.
  rewrite Z.mod_add by lia. rewrite Z.mod_small by lia.
  assert (rest / 1000000 < 3601) by (apply Z.div_lt_upper_bound; lia). lia.
Qed.

(** Idle for three days and ten minutes. *)
Lemma validate_session_ignores_days_witness :
  validate_session (5 + Database.timedelta_days 3 + 600000000) 7 (fresh_session "s1" 5)
  = (Valid, <["last_activity"%string := STime 7]> (fresh_session "s1" 5)).
Proof.
  apply (validate_session_ignores_days (fresh_session "s1" 5) 5 3 600000000 7).
  - eexists. reflexivity.
  - reflexivity.
  - lia.
Defined.

Lemma filter_firstn_kept {A} (p : A -> bool) n l :
  List.filter p (firstn n (List.filter p l)) = firstn n (List.filter p l).
Proof.
  apply DatabaseFacts.filter_all. intros x Hin.
  apply In_firstn, filter_In in Hin. tauto.
Qed.

(** X20.  The sanitised search query holds none of the four characters, has at
    most 500 characters, is left unchanged by sanitising it again, and is
    the query itself when that was already clean and short. *)
Theorem sanitized_query_is_clean (query : pystr) :
  let clean := _sanitize_search_query query in
  List.Forall (fun c => query_forbidden c = false) clean /\
  (length clean <= 500)%nat /\
  _sanitize_search_query clean = clean /\
  (List.Forall (fun c => query_forbidden c = false) query -> (length query <= 500)%nat ->
   clean = query).
Proof.
  unfold _sanitize_search_query. split; [|split; [|split]].
  - apply List.Forall_forall. intros c Hin. apply In_firstn, filter_In in Hin.
    apply negb_true_iff. tauto.
  - apply firstn_le_length.
  - rewrite filter_firstn_kept. apply firstn_all2.
    rewrite length_firstn. lia.
  - intros Hclean Hshort. rewrite DatabaseFacts.filter_all.
    + apply firstn_all2, Hshort.
    + rewrite List.Forall_forall in Hclean. intros c Hin.
      apply negb_true_iff. auto.
Qed.

End SanitizerProperties.

(** *** Agent registry and selection *)
Module RegistryFacts.
Import Workflow WorkflowFacts.

Lemma dict_set_new {A} k (v : A) d :
  dict_get k d = None -> dict_set k v d = d ++ [(k, v)].
Proof.
  induction d as [|[k' v'] rest IH]; simpl; trivial.
  destruct (String.eqb k k'); [discriminate|]. intros H. rewrite IH; trivial.
Qed.

Lemma dict_get_snoc_none {A} k k' (v : A) d :
  dict_get k d = None -> k <> k' -> dict_get k (d ++ [(k', v)]) = None.
Proof.
  intros Hnone Hne. induction d as [|[k0 v0] rest IH]; simpl in *.
  - apply String.eqb_neq in Hne. rewrite Hne. reflexivity.
  - destruct (String.eqb k k0); [discriminate | auto].
Qed.

Lemma dict_get_not_in {A} k (d : dict A) :
  ~ In k (List.map fst d) -> dict_get k d = None.
Proof.
  induction d as [|[k' v'] rest IH]; simpl; trivial.
  intros Hnot. destruct (String.eqb_spec k k') as [->|Hne]; [tauto|].
  apply IH. tauto.
Qed.

Lemma dict_get_in {A} k (v : A) d :
  List.NoDup (List.map fst d) -> In (k, v) d -> dict_get k d = Some v.
Proof.
  induction d as [|[k' v'] rest IH]; simpl; [tauto|].
  intros Hnd. apply List.NoDup_cons_iff in Hnd as [Hnotin Hnd].
  intros [[= -> ->] | Hin].
  - rewrite String.eqb_refl. reflexivity.
  - destruct (String.eqb_spec k k') as [->|Hne]; [|auto].
    exfalso. apply Hnotin. change k' with (fst (k', v)). apply in_map, Hin.
Qed.

Lemma dict_get_some_in {A} k (v : A) d : dict_get k d = Some v -> In (k, v) d.
Proof.
  induction d as [|[k' v'] rest IH]; simpl; [discriminate|].
  destruct (String.eqb_spec k k') as [->|Hne]; [intros [= ->]; auto | auto].
Qed.

Lemma dict_set_keys {A} k (v : A) d :
  List.map fst (dict_set k v d) =
  match dict_get k d with
  | Some _ => List.map fst d
  | None => List.map fst d ++ [k]
  end.
Proof.
  induction d as [|[k' v'] rest IH]; simpl; trivial.
  destruct (String.eqb k k'); simpl; trivial.
  rewrite IH. destruct (dict_get k rest); reflexivity.
Qed.

Lemma dict_set_NoDup {A} k (v : A) d :
  List.NoDup (List.map fst d) -> List.NoDup (List.map fst (dict_set k v d)).
Proof.
  intros Hnd. rewrite dict_set_keys. destruct (dict_get k d) eqn:Hget; trivial.
  apply DatabaseFacts.NoDup_snoc; trivial.
  intros Hin. apply in_map_iff in Hin as ([k' v'] & Hk & Hin). simpl in Hk. subst k'.
  apply (dict_get_in _ _ _ Hnd) in Hin. congruence.
Qed.

(** A loop that sets one key per item of a dict, skipping some items,
    builds the items it kept, in order. *)
Lemma fold_dict_set {A B} (g : A -> B) (keep : A -> bool) (items : dict A) :
  List.NoDup (List.map fst items) ->
  forall acc,
    (forall k, In k (List.map fst items) -> dict_get k acc = None) ->
    fold_left (fun d '(k, a) => if keep a then dict_set k (g a) d else d) items acc
    = acc ++ List.map (fun '(k, a) => (k, g a)) (List.filter (fun '(k, a) => keep a) items).
Proof.
  induction items as [|[k a] rest IH]; intros Hnd acc Hfresh; simpl.
  - rewrite app_nil_r. reflexivity.
  - simpl in Hnd. apply List.NoDup_cons_iff in Hnd as [Hnotin Hnd].
    destruct (keep a); simpl.
    + rewrite dict_set_new by (apply Hfresh; simpl; auto).
      rewrite IH; trivial.
      * rewrite <- app_assoc. reflexivity.
      * intros k' Hk'. apply dict_get_snoc_none.
        -- apply Hfresh. simpl. auto.
        -- intros ->. contradiction.
    + apply IH; trivial. intros k' Hk'. apply Hfresh. simpl. auto.
Qed.

Lemma max_from_is_max {A} (key : A -> Q) items : forall best x,
  In x (best :: items) -> (key x <= key (max_from key best items))%Q.
Proof.
  induction items as [|y rest IH]; intros best x Hin; simpl.
  - destruct Hin as [<- | []]. apply Qle_refl.
  - destruct (Qle_bool (key y) (key best)) eqn:Hle.
    + apply Qle_bool_iff in Hle.
      destruct Hin as [<- | [<- | Hin]].
      * apply IH. simpl. auto.
      * eapply Qle_trans; [exact Hle|]. apply IH. simpl. auto.
      * apply IH. simpl. auto.
    + assert (Hlt : (key best < key y)%Q).
      { apply Qnot_le_lt. intros H. apply Qle_bool_iff in H. congruence. }
      destruct Hin as [<- | [<- | Hin]].
      * eapply Qle_trans; [apply Qlt_le_weak, Hlt|]. apply IH. simpl. auto.
      * apply IH. simpl. auto.
      * apply IH. simpl. auto.
Qed.

End RegistryFacts.

Module RegistryProperties.
Import Workflow WorkflowFacts RegistryFacts.

(** X21.  Registering an agent makes it the one found under its type, replacing
    an earlier agent of that type in place; every other entry is found as
    before, and the keys stay distinct. *)
Theorem register_agent_lookup (agent : BaseAgent) (agents : dict BaseAgent) (k : string) :
  dict_get k (register_agent agent agents)
  = (if String.eqb k (agent_type agent) then Some agent else dict_get k agents) /\
  length (register_agent agent agents)
  = (match dict_get (agent_type agent) agents with
     | Some _ => length agents
     | None => S (length agents)
     end) /\
  (List.NoDup (List.map fst agents) ->
   List.NoDup (List.map fst (register_agent agent agents))).
Proof.
  unfold register_agent. split; [|split].
  - destruct (String.eqb_spec k (agent_type agent)) as [->|Hne].
    + apply dict_get_set_eq.
    + apply dict_get_set_ne, Hne.
  - rewrite <- !(length_map fst), dict_set_keys.
    destruct (dict_get (agent_type agent) agents); [reflexivity|].
    rewrite length_app. simpl. lia.
  - apply dict_set_NoDup.
Qed.

Section Best.
Variable score : BaseAgent -> string -> gmap string Any -> Q.

Lemma agent_scores_shape agents task context :
  List.NoDup (List.map fst agents) ->
  agent_scores score agents task context
  = List.map (fun '(k, a) => (k, score a task context))
             (List.filter (fun '(k, a) => can_handle a task context) agents).
Proof.
  intros Hnd. unfold agent_scores.
  exact (fold_dict_set (fun a => score a task context)
           (fun a => can_handle a task context) agents Hnd [] (fun _ _ => eq_refl)).
Qed.

(** X22.  With distinct keys in the registry, [_select_best_agent] returns a
    registered agent that accepts the task and whose score no accepting
    agent exceeds; it raises only [ValueError], and only when no
    registered agent accepts the task. *)
Theorem select_best_agent_is_best (agents : dict BaseAgent) (task : string)
    (context : gmap string Any) :
  List.NoDup (List.map fst agents) ->
  match _select_best_agent score agents task context with
  | inl agent =>
      can_handle agent task context = true /\
      (exists k, In (k, agent) agents) /\
      forall k a, In (k, a) agents -> can_handle a task context = true ->
                  (score a task context <= score agent task context)%Q
  | inr exn =>
      exn = ValueError /\
      forall k a, In (k, a) agents -> can_handle a task context = false
  end.
Proof.
  intros Hnd. unfold _select_best_agent. rewrite (agent_scores_shape _ _ _ Hnd).
  set (accepting := List.filter (fun '(k, a) => can_handle a task context) agents).
  assert (Hacc : forall k a, In (k, a) accepting <->
                             In (k, a) agents /\ can_handle a task context = true).
  { intros k a. subst accepting. rewrite filter_In. reflexivity. }
  destruct accepting as [|[k0 a0] rest] eqn:Haccepting; simpl.
  - split; [reflexivity|]. intros k a Hin.
    destruct (can_handle a task context) eqn:Hcan; trivial.
    destruct (proj2 (Hacc k a) (conj Hin Hcan)).
  - set (scored := List.map (fun '(k, a) => (k, score a task context)) rest).
    pose proof (max_from_In snd (k0, score a0 task context) scored) as Hbest.
    pose proof (max_from_is_max snd scored (k0, score a0 task context)) as Hmax.
    destruct (max_from snd (k0, score a0 task context) scored) as [best best_score].
    assert (Hfound : exists agent, In (best, agent) ((k0, a0) :: rest) /\
                                   best_score = score agent task context).
    { destruct Hbest as [[= <- <-] | Hin]; [exists a0; simpl; auto|].
      subst scored. apply in_map_iff in Hin as ([k a] & [= <- <-] & Hin).
      exists a. simpl. auto. }
    destruct Hfound as (agent & Hin & ->).
    apply Hacc in Hin as [Hin Hcan].
    rewrite (dict_get_in _ _ _ Hnd Hin).
    split; [exact Hcan|]. split; [eauto|].
    intros k a Hka Hcana.
    assert (Hsc : In (k, score a task context)
                     ((k0, score a0 task context) :: scored)).
    { destruct (proj2 (Hacc k a) (conj Hka Hcana)) as [[= <- <-] | Hrest];
        [simpl; auto|].
      right. subst scored. apply in_map_iff. exists (k, a). auto. }
    exact (Hmax _ Hsc).
Qed.
End Best.

Lemma select_best_agent_is_best_witness :
  match _select_best_agent (fun a _ _ => if String.eqb (agent_type a) "calendar_agent"
                                         then 9 # 10 else 5 # 10)
          Engine.two_agents "Schedule a meeting" ∅ with
  | inl agent =>
      can_handle agent "Schedule a meeting" ∅ = true /\
      (exists k, In (k, agent) Engine.two_agents) /\
      forall k a, In (k, a) Engine.two_agents ->
                  can_handle a "Schedule a meeting" ∅ = true ->
                  ((if String.eqb (agent_type a) "calendar_agent" then 9 # 10 else 5 # 10)
                   <= (if String.eqb (agent_type agent) "calendar_agent"
                       then 9 # 10 else 5 # 10))%Q
  | inr exn =>
      exn = ValueError /\
      forall k a, In (k, a) Engine.two_agents ->
                  can_handle a "Schedule a meeting" ∅ = false
  end.
Proof.
  apply (select_best_agent_is_best
           (fun a _ _ => if String.eqb (agent_type a) "calendar_agent"
                         then 9 # 10 else 5 # 10)
           Engine.two_agents "Schedule a meeting" ∅).
  repeat constructor; simpl; intuition discriminate.
Defined.

End RegistryProperties.

Module CapabilityProperties.
Import Workflow WorkflowFacts RegistryFacts Metrics.

(** X23.  With distinct keys in the registry, [get_agent_capabilities] reports
    the capabilities of exactly the registered agents, under their keys
    and in registration order. *)
Theorem capabilities_of_registered (get_capabilities : BaseAgent -> list string)
    (agents : dict BaseAgent) :
  List.NoDup (List.map fst agents) ->
  get_agent_capabilities get_capabilities agents
  = List.map (fun '(k, a) => (k, get_capabilities a)) agents /\
  forall k, dict_get k (get_agent_capabilities get_capabilities agents)
            = option_map get_capabilities (dict_get k agents).
Proof.
  intros Hnd.
  assert (Hshape : get_agent_capabilities get_capabilities agents
                   = List.map (fun '(k, a) => (k, get_capabilities a)) agents).
  { unfold get_agent_capabilities.
    etransitivity;
      [exact (fold_dict_set get_capabilities (fun _ => true) agents Hnd []
                (fun _ _ => eq_refl))|].
    simpl. f_equal. apply DatabaseFacts.filter_all. intros [k a] _. reflexivity. }
  split; [exact Hshape|]. rewrite Hshape. intros k. clear.
  induction agents as [|[k' a] rest IH]; simpl; trivial.
  destruct (String.eqb k k'); simpl; auto.
Qed.

Lemma capabilities_of_registered_witness :
  get_agent_capabilities (fun a => [agent_type a]) Engine.two_agents
  = List.map (fun '(k, a) => (k, [agent_type a])) Engine.two_agents /\
  forall k, dict_get k (get_agent_capabilities (fun a => [agent_type a]) Engine.two_agents)
            = option_map (fun a => [agent_type a]) (dict_get k Engine.two_agents).
Proof.
  apply (capabilities_of_registered (fun a => [agent_type a]) Engine.two_agents).
  repeat constructor; simpl; intuition discriminate.
Defined.

End CapabilityProperties.

(** *** More on the web client *)
Module ChatProperties.
Import Chat ChatFacts ChatState.





Lemma trim_start_not_white s c rest :
  trim_start s = c :: rest -> is_white_space c = false.
Proof.
  induction s as [|d s IH]; simpl; [discriminate|].
  destruct (is_white_space d) eqn:Hd; [exact IH|]. intros [= <- <-]. exact Hd.
Qed.

Lemma trim_start_suffix s : exists pre, s = pre ++ trim_start s.
Proof.
  induction s as [|d s [pre IH]]; simpl.
  - exists []. reflexivity.
  - destruct (is_white_space d).
    + exists (d :: pre). simpl. f_equal. exact IH.
    + exists []. reflexivity.
Qed.

Lemma trim_start_all_white s :
  List.Forall (fun c => is_white_space c = true) s -> trim_start s = [].
Proof.
  induction 1 as [|c s Hc _ IH]; simpl; trivial. rewrite Hc. exact IH.
Qed.

(** The ends of a trimmed string. *)
Lemma trim_ends s c rest :
  trim s = c :: rest ->
  is_white_space c = false /\ is_white_space (List.last (c :: rest) c) = false.
Proof.
  unfold trim. intros Htrim.
  destruct (trim_start_suffix (rev (trim_start s))) as [pre Hpre].
  assert (Hs : trim_start s = (c :: rest) ++ rev pre).
  { rewrite <- Htrim, <- rev_app_distr, <- Hpre, rev_involutive. reflexivity. }
  split.
  - apply (trim_start_not_white s c (rest ++ rev pre)). exact Hs.
  - assert (Hrev : trim_start (rev (trim_start s)) = rev (c :: rest))
      by (rewrite <- Htrim, rev_involutive; reflexivity).
    destruct (rev (c :: rest)) as [|z zs] eqn:Hz.
    + apply (f_equal (@length _)) in Hz. rewrite length_rev in Hz. discriminate.
    + apply trim_start_not_white in Hrev.
      assert (Hlast : c :: rest = rev zs ++ [z]).
      { rewrite <- (rev_involutive (c :: rest)), Hz. reflexivity. }
      rewrite Hlast, last_last. exact Hrev.
Qed.

(** X25.  An input of white space only is never sent.  When a message is sent,
    the request carries the trimmed input, which is not empty and neither
    starts nor ends with white space; the same text is recorded as the
    user's message and the input is cleared. *)
Theorem sent_message_is_trimmed (p : Page) :
  (List.Forall (fun c => is_white_space c = true) (messageInput_value (chat p)) ->
   sendMessage_begin p = p) /\
  (forall c rest,
     isProcessing (chat p) = false ->
     trim (messageInput_value (chat p)) = c :: rest ->
     let p' := sendMessage_begin p in
     in_flight p' = in_flight p ++ [mkRequest (c :: rest) (sessionId (chat p))] /\
     is_white_space c = false /\
     is_white_space (List.last (c :: rest) c) = false /\
     messageHistory (chat p') = messageHistory (chat p) ++ [UserMessage (c :: rest)] /\
     messageInput_value (chat p') = []).
Proof.
  split.
  - intros Hwhite. apply sendMessage_begin_blocked. left.
    unfold trim. rewrite (trim_start_all_white _ Hwhite). reflexivity.
  - intros c rest Hproc Htrim. destruct (trim_ends _ _ _ Htrim) as [Hfirst Hlast].
    unfold sendMessage_begin. rewrite Htrim, Hproc. simpl. auto.
Qed.

End ChatProperties.

Module ChatExamples.
Import Chat ChatFacts ChatState ChatProperties.


(** Welcome bubble, user's message, error bubble on display; the user's
    message alone in the history. *)
Example error_shown_not_recorded :
  option_map (fun p => (chatMessages (chat p), messageHistory (chat p))) after_failure
  = Some ([WelcomeMessage; UserMessage hi; ErrorMessage failed_to_send],
          [UserMessage hi]).
Proof. reflexivity. Qed.

(** [clearChat] removes the welcome bubble for good. *)
Example welcome_gone_after_clear :
  option_map (fun p => (chatMessages (chat p), messageHistory (chat p))) after_clear
  = Some ([UserMessage hi; AssistantMessage hi],
          [UserMessage hi; AssistantMessage hi]).
Proof. reflexivity. Qed.

End ChatExamples.

(** *** Model input sanitising *)
Module PromptGuardFacts.
Import Guardrails GuardrailFacts PromptGuard.

Lemma replace_from_skip k old new s :
  replace_from k old new s = replace_from 0 old new (skipn k s).
Proof.
  revert s. induction k as [|k IH]; intros s; [reflexivity|].
  destruct s as [|c rest]; [reflexivity|]. simpl skipn. rewrite <- IH. reflexivity.
Qed.

Lemma foreignb_spec new p : foreignb new p = true -> foreign new p.
Proof.
  unfold foreignb, foreign. rewrite forallb_forall. intros H x Hin Hp.
  specialize (H x Hin). apply negb_true_iff, not_true_iff_false in H. apply H.
  apply existsb_exists. exists x. split; [exact Hp | apply N.eqb_refl].
Qed.

Lemma foreign_tail new y p : foreign new (y :: p) -> foreign new p.
Proof. intros H x Hin Hp. apply (H x Hin). simpl. auto. Qed.

Lemma contains_nil_r p : contains p [] = true -> p = [].
Proof. simpl. rewrite orb_false_r. destruct p; [reflexivity | discriminate]. Qed.

Lemma contains_skipn p k s : contains p (skipn k s) = true -> contains p s = true.
Proof.
  intros H. rewrite <- (firstn_skipn k s). apply contains_app_l, H.
Qed.

Lemma contains_firstn p k s : contains p (firstn k s) = true -> contains p s = true.
Proof.
  intros H. rewrite <- (firstn_skipn k s). apply contains_app_r, H.
Qed.

Section Replace.
Variables old new : pystr.
Hypothesis new_nonempty : new <> [].

(** A non-empty [p] that shares no character with [new] cannot start
    inside [new]. *)
Lemma contains_after_new p t :
  p <> [] -> foreign new p -> contains p (new ++ t) = true -> contains p t = true.
Proof.
  intros Hp Hforeign. clear new_nonempty.
  induction new as [|x new' IH]; simpl app; trivial.
  rewrite contains_cons. intros H. apply orb_true_iff in H as [H | H].
  - destruct p as [|y p']; [congruence|]. simpl in H.
    apply andb_true_iff in H as [H _]. apply N.eqb_eq in H. subst y.
    exfalso. apply (Hforeign x); simpl; auto.
  - apply IH; trivial. intros z Hz. apply Hforeign. simpl. auto.
Qed.

(** What the output starts with, the input starts with. *)
Lemma starts_with_replaced p : forall s,
  foreign new p ->
  starts_with p (replace_from 0 old new s) = true -> starts_with p s = true.
Proof.
  induction p as [|y p IH]; intros s Hforeign; [reflexivity|].
  destruct s as [|c rest]; [simpl; trivial|].
  simpl replace_from. destruct (starts_with old (c :: rest)).
  - destruct new as [|x new']; [congruence|]. simpl.
    intros H. apply andb_true_iff in H as [H _]. apply N.eqb_eq in H. subst y.
    exfalso. apply (Hforeign x); simpl; auto.
  - simpl. intros H. apply andb_true_iff in H as [-> H]. simpl.
    apply IH; [eapply foreign_tail; exact Hforeign | exact H].
Qed.

Lemma starts_with_cons_replaced p c s :
  foreign new p ->
  starts_with p (c :: replace_from 0 old new s) = true -> starts_with p (c :: s) = true.
Proof.
  destruct p as [|y p']; [reflexivity|]. simpl. intros Hforeign H.
  apply andb_true_iff in H as [-> H]. simpl.
  apply starts_with_replaced in H; [exact H | eapply foreign_tail; exact Hforeign].
Qed.

(** Replacing creates no occurrence of a phrase that shares no character
    with the replacement. *)
Lemma replace_creates_nothing p :
  p <> [] -> foreign new p ->
  forall n s, (length s <= n)%nat ->
    contains p (replace_from 0 old new s) = true -> contains p s = true.
Proof.
  intros Hp Hforeign. induction n as [|n IH]; intros s Hlen.
  - destruct s; [|simpl in Hlen; lia]. simpl. trivial.
  - destruct s as [|c rest]; [simpl; trivial|].
    simpl replace_from. destruct (starts_with old (c :: rest)) eqn:Hmatch.
    + rewrite replace_from_skip. intros H.
      apply contains_after_new in H; trivial.
      apply IH in H.
      * rewrite contains_cons. apply contains_skipn in H. rewrite H. apply orb_true_r.
      * rewrite length_skipn. simpl in Hlen. lia.
    + rewrite !contains_cons. intros H. apply orb_true_iff in H as [H | H].
      * rewrite (starts_with_cons_replaced p c rest Hforeign H). reflexivity.
      * apply IH in H; [|simpl in Hlen; lia]. rewrite H. apply orb_true_r.
Qed.

(** After replacing, no occurrence of [old] is left. *)
Lemma replace_leaves_nothing :
  old <> [] -> foreign new old ->
  forall n s, (length s <= n)%nat -> contains old (replace_from 0 old new s) = false.
Proof.
  intros Hold Hforeign.
  assert (Hempty : contains old [] = false).
  { apply not_true_iff_false. intros H. apply contains_nil_r in H. congruence. }
  induction n as [|n IH]; intros s Hlen.
  - destruct s; [exact Hempty | simpl in Hlen; lia].
  - destruct s as [|c rest]; [exact Hempty|].
    simpl replace_from. destruct (starts_with old (c :: rest)) eqn:Hmatch.
    + rewrite replace_from_skip. apply not_true_iff_false. intros H.
      apply contains_after_new in H; trivial.
      rewrite IH in H; [discriminate|]. rewrite length_skipn. simpl in Hlen. lia.
    + rewrite contains_cons. apply orb_false_iff. split.
      * apply not_true_iff_false. intros H.
        apply starts_with_cons_replaced in H; [congruence | exact Hforeign].
      * apply IH. simpl in Hlen. lia.
Qed.
End Replace.

End PromptGuardFacts.

Module PromptGuardProperties.
Import Guardrails GuardrailFacts PromptGuard PromptGuardFacts.

Lemma str_replace_nonempty old new s :
  old <> [] -> str_replace old new s = replace_from 0 old new s.
Proof. destruct old; [congruence | reflexivity]. Qed.

Section Phrases.
Variable new : pystr.
Hypothesis new_nonempty : new <> [].

Lemma replace_all_creates_nothing p phrases :
  p <> [] -> foreign new p -> List.Forall (fun q => q <> []) phrases ->
  forall s, contains p (replace_all new phrases s) = true -> contains p s = true.
Proof.
  intros Hp Hforeign Hall. induction Hall as [|q rest Hq _ IH]; intros s; simpl; trivial.
  intros H. apply IH in H. rewrite str_replace_nonempty in H by exact Hq.
  exact (replace_creates_nothing q new new_nonempty p Hp Hforeign _ s (le_n _) H).
Qed.

Lemma replace_all_leaves_nothing phrases :
  List.Forall (fun q => q <> [] /\ foreign new q) phrases ->
  forall p s, In p phrases -> contains p (replace_all new phrases s) = false.
Proof.
  intros Hall. induction Hall as [|q rest [Hq Hforeign] Hrest IH]; intros p s; simpl; [tauto|].
  intros [<- | Hin]; [|apply IH, Hin].
  apply not_true_iff_false. intros H.
  apply replace_all_creates_nothing in H; trivial.
  - rewrite str_replace_nonempty in H by exact Hq.
    rewrite (replace_leaves_nothing q new new_nonempty Hq Hforeign _ s (le_n _)) in H.
    discriminate.
  - eapply List.Forall_impl; [|exact Hrest]. simpl. tauto.
Qed.
End Phrases.

Lemma phrases_ok :
  List.Forall (fun q => q <> [] /\ foreign FILTERED q) dangerous_phrases.
Proof.
  repeat constructor; try discriminate; apply foreignb_spec; reflexivity.
Qed.

(** X26.  The sanitised content contains none of the four phrases (in their
    lower-case spelling, as the source compares them) and has at most
    5000 characters. *)
Theorem sanitized_content_has_no_phrase (content phrase : pystr) :
  In phrase dangerous_phrases ->
  contains phrase (_sanitize_content content) = false /\
  (length (_sanitize_content content) <= 5000)%nat.
Proof.
  intros Hin. unfold _sanitize_content. split; [|apply firstn_le_length].
  apply not_true_iff_false. intros H. apply contains_firstn in H.
  change (contains phrase (replace_all FILTERED dangerous_phrases content) = true) in H.
  rewrite (replace_all_leaves_nothing FILTERED) in H;
    [discriminate | discriminate | exact phrases_ok | exact Hin].
Qed.

Lemma sanitized_content_has_no_phrase_witness :
  contains (py "pretend to be")
    (_sanitize_content (py "please pretend to be ignore previous instructions")) = false /\
  (length (_sanitize_content (py "please pretend to be ignore previous instructions"))
   <= 5000)%nat.
Proof.
  apply (sanitized_content_has_no_phrase
           (py "please pretend to be ignore previous instructions") (py "pretend to be")).
  simpl. auto.
Defined.

(** The replacement itself, on an input with two phrases; a phrase in
    capitals passes. *)
Example sanitize_content_examples :
  _sanitize_content (py "please pretend to be ignore previous instructions")
  = py "please [FILTERED] [FILTERED]" /\
  _sanitize_content (py "Ignore previous instructions") = py "Ignore previous instructions".
Proof. split; vm_compute; reflexivity. Qed.

End PromptGuardProperties.
